(** * react-markdown-editor-lite: the editor controller

    A shallow embedding of [src/editor/index.tsx] (class [Editor]) and of the
    parts of the JavaScript and DOM runtime its methods call.

    - JavaScript strings are sequences of UTF-16 code units: [list N].
    - Objects compared with [===] (plugin components, keyboard listeners,
      event objects) are references: [ref].
    - JavaScript numbers that carry scroll geometry are IEEE 754 doubles:
      Rocq's primitive [float].
    - The instance, the log of what it did to its host (callbacks, emitted
      events, console output, writes to the panes) and the callbacks it left
      pending (timeouts, animation frames, promise reactions) form a [World];
      every method is a function from worlds to worlds.
    - [this.setState] is applied at once, which is what React does for an
      update issued outside one of its own batched event handlers (the
      CodeMirror change handler, a promise reaction, a timeout); each call
      is also written to the log. *)

From Stdlib Require Import ZArith NArith List Bool Lia PrimFloat.
From stdpp Require Import base tactics option numbers list strings gmap.

Set Default Proof Using "Type".

(* ===================================================================== *)
(** ** The JavaScript runtime: strings and arrays                          *)
(* ===================================================================== *)

(** A reference to a JavaScript object; [===] on objects compares these. *)
Abbreviation ref := N (only parsing).

(** A JavaScript string, as its UTF-16 code units. *)
Abbreviation jsstring := (list N) (only parsing).

Module JS.

(** The code units of an ASCII literal. *)
Definition lit (s : string) : jsstring :=
  map Ascii.N_of_ascii (String.list_ascii_of_string s).

(** U+21B5, the character of the pattern [/↵/g]. *)
Definition SENTINEL : N := 8629%N.
(** U+000A, the replacement ['\n']. *)
Definition LF : N := 10%N.
(** The characters [GetSubstitution] looks for after a dollar sign. *)
Definition DOLLAR : N := 36%N.
Definition AMPERSAND : N := 38%N.
Definition BACKTICK : N := 96%N.
Definition QUOTE : N := 39%N.

(** [s.replace(/↵/g, '\n')]: the pattern is one code unit and the
    replacement, which holds no dollar sign, is one code unit. *)
Definition replace_sentinel (s : jsstring) : jsstring :=
  map (fun c => if N.eqb c SENTINEL then LF else c) s.

(** [a === b] on strings. *)
Definition str_eq (a b : jsstring) : bool := bool_decide (a = b).

(** [a || b] on [string | undefined]: [a] when it is truthy, a defined
    string that is not empty. *)
Definition truthy (a : option jsstring) : bool :=
  match a with
  | Some (_ :: _) => true
  | _ => false
  end.

Definition or_else (a b : option jsstring) : option jsstring :=
  if truthy a then a else b.

(** [a || ''], which is a string. *)
Definition or_empty (a : option jsstring) : jsstring :=
  match a with
  | Some (c :: s) => c :: s
  | _ => []
  end.

(** [s.slice(start, end)] (ECMA-262, String.prototype.slice) on integers. *)
Definition slice (s : jsstring) (start end_ : Z) : jsstring :=
  let len := Z.of_nat (length s) in
  let from := if (start <? 0)%Z then Z.max (len + start) 0 else Z.min start len in
  let to := if (end_ <? 0)%Z then Z.max (len + end_) 0 else Z.min end_ len in
  take (Z.to_nat (to - from)) (drop (Z.to_nat from) s).

(** Whether [p] is a prefix of [s], code unit by code unit. *)
Fixpoint starts_with (p s : jsstring) : bool :=
  match p, s with
  | [], _ => true
  | _ :: _, [] => false
  | a :: p', b :: s' => N.eqb a b && starts_with p' s'
  end.

(** [StringIndexOf(s, p, 0)] (ECMA-262): the least index at which [p]
    occurs in [s], counted from [i] for the suffix at hand. *)
Fixpoint string_index_of (p s : jsstring) (i : nat) : option nat :=
  if starts_with p s then Some i
  else match s with
       | [] => None
       | _ :: s' => string_index_of p s' (S i)
       end.

(** [GetSubstitution] (ECMA-262) for a match found by a string pattern:
    there are no captures and no named groups, so of the dollar forms only
    [$$], [$&], [$`] and [$'] are replaced; any other dollar sign stands for
    itself. *)
Fixpoint GetSubstitution (matched before after template : jsstring) : jsstring :=
  match template with
  | [] => []
  | c :: rest =>
      if N.eqb c DOLLAR then
        match rest with
        | [] => [DOLLAR]
        | d :: rest' =>
            if N.eqb d DOLLAR then DOLLAR :: GetSubstitution matched before after rest'
            else if N.eqb d AMPERSAND then matched ++ GetSubstitution matched before after rest'
            else if N.eqb d BACKTICK then before ++ GetSubstitution matched before after rest'
            else if N.eqb d QUOTE then after ++ GetSubstitution matched before after rest'
            else DOLLAR :: GetSubstitution matched before after rest
        end
      else c :: GetSubstitution matched before after rest
  end.

(** [s.replace(searchValue, replaceValue)] with both arguments strings
    (ECMA-262, String.prototype.replace): the first occurrence only. *)
Definition replace (s searchValue replaceValue : jsstring) : jsstring :=
  match string_index_of searchValue s 0 with
  | None => s
  | Some pos =>
      let preserved := take pos s in
      let tail := drop (pos + length searchValue) s in
      preserved ++ GetSubstitution searchValue preserved tail replaceValue ++ tail
  end.

(** [l.splice(i, deleteCount, ...items)] for [i] within the array. *)
Definition splice {A} (i deleteCount : nat) (items l : list A) : list A :=
  take i l ++ items ++ drop (i + deleteCount) l.

(** [l.indexOf(x)] on an array of references: the first index, or [-1]. *)
Fixpoint indexOf (l : list ref) (x : ref) : Z :=
  match l with
  | [] => (-1)%Z
  | y :: l' =>
      if N.eqb y x then 0%Z
      else let r := indexOf l' x in
           if (r <? 0)%Z then (-1)%Z else (r + 1)%Z
  end.

(** [l.includes(x)] on an array of references. *)
Definition includes (l : list ref) (x : ref) : bool :=
  existsb (N.eqb x) l.

End JS.

(* ===================================================================== *)
(** ** The static plugin registry: [Editor.plugins]                        *)
(* ===================================================================== *)

Module Plugins.
Section PluginRegistry.

(** The type of a plugin's configuration object and the literal [{}], the
    default of [use]'s second parameter. *)
Variable Config : Type.
Variable emptyConfig : Config.

(** [type Plugin = {comp: any; config: any}]. *)
Record Plugin := mkPlugin { comp : ref; config : Config }.

(** The loop of [use] and [unuse]: the first [i] from [i0] on with
    [plugins[i].comp === c]. *)
Fixpoint first_with_comp (c : ref) (plugins : list Plugin) (i0 : nat) : option nat :=
  match plugins with
  | [] => None
  | p :: rest => if N.eqb (comp p) c then Some i0 else first_with_comp c rest (S i0)
  end.

(** [static use(comp, config = {})]. *)
Definition use (c : ref) (cfg : option Config) (plugins : list Plugin) : list Plugin :=
  let entry := mkPlugin c (default emptyConfig cfg) in
  match first_with_comp c plugins 0 with
  | Some i => JS.splice i 1 [entry] plugins
  | None => plugins ++ [entry]
  end.

(** [static unuse(comp)]. *)
Definition unuse (c : ref) (plugins : list Plugin) : list Plugin :=
  match first_with_comp c plugins 0 with
  | Some i => JS.splice i 1 [] plugins
  | None => plugins
  end.

(** [static unuseAll()]. *)
Definition unuseAll (plugins : list Plugin) : list Plugin := [].

(** A call of one of the three static methods, and its effect on
    [Editor.plugins]. *)
Inductive Call :=
| Use (c : ref) (cfg : option Config)
| Unuse (c : ref)
| UnuseAll.

Definition call (plugins : list Plugin) (op : Call) : list Plugin :=
  match op with
  | Use c cfg => use c cfg plugins
  | Unuse c => unuse c plugins
  | UnuseAll => unuseAll plugins
  end.

End PluginRegistry.

Arguments mkPlugin {Config} _ _.
Arguments comp {Config} _.
Arguments config {Config} _.
Arguments first_with_comp {Config} _ _ _.
Arguments use {Config} _ _ _ _.
Arguments unuse {Config} _ _.
Arguments unuseAll {Config} _.
Arguments Use {Config} _ _.
Arguments Unuse {Config} _.
Arguments UnuseAll {Config}.
Arguments call {Config} _ _ _.

End Plugins.

(* ===================================================================== *)
(** ** Keyboard listeners: [onKeyboard], [offKeyboard]                     *)
(* ===================================================================== *)

(** [data: KeyboardEventListener | KeyboardEventListener[]]. *)
Inductive KeyboardArg :=
| OneListener (it : ref)
| ListenerArray (its : list ref).

(** The body of [onKeyboard] past the array test. *)
Definition onKeyboard_one (data : ref) (keyboardListeners : list ref) : list ref :=
  if negb (JS.includes keyboardListeners data)
  then keyboardListeners ++ [data]
  else keyboardListeners.

Definition onKeyboard (data : KeyboardArg) (keyboardListeners : list ref) : list ref :=
  match data with
  | ListenerArray its => foldl (fun ls it => onKeyboard_one it ls) keyboardListeners its
  | OneListener it => onKeyboard_one it keyboardListeners
  end.

(** The body of [offKeyboard] past the array test. *)
Definition offKeyboard_one (data : ref) (keyboardListeners : list ref) : list ref :=
  let index := JS.indexOf keyboardListeners data in
  if (0 <=? index)%Z
  then JS.splice (Z.to_nat index) 1 [] keyboardListeners
  else keyboardListeners.

Definition offKeyboard (data : KeyboardArg) (keyboardListeners : list ref) : list ref :=
  match data with
  | ListenerArray its => foldl (fun ls it => offKeyboard_one it ls) keyboardListeners its
  | OneListener it => offKeyboard_one it keyboardListeners
  end.

(* ===================================================================== *)
(** ** The DOM nodes the instance holds references to                     *)
(* ===================================================================== *)

Module DOM.

Inductive Direction := forward | backward | none.

(** The [<textarea>] behind [nodeMdText]: its value, its selection (offsets
    in code units, [unsigned long] in the DOM interface), its scrollable
    height and whether it has the focus. *)
Record TextArea := mkTextArea {
  value : jsstring;
  selectionStart : Z;
  selectionEnd : Z;
  selectionDirection : Direction;
  scrollHeight : float;
  focused : bool
}.

(** Conversion of an integer to the Web IDL type [unsigned long]. *)
Definition to_unsigned_long (x : Z) : Z := (x mod 2 ^ 32)%Z.

(** [node.setSelectionRange(start, end, direction)] (HTML Standard, "set
    the selection range"): offsets past the end of the value point at its
    end, and when [end <= start] both ends are placed at [end]. *)
Definition setSelectionRange (start end_ : Z) (direction : Direction)
    (node : TextArea) : TextArea :=
  let len := Z.of_nat (length (value node)) in
  let s := Z.min (to_unsigned_long start) len in
  let e := Z.min (to_unsigned_long end_) len in
  {| value := value node;
     selectionStart := if (e <=? s)%Z then e else s;
     selectionEnd := e;
     selectionDirection := direction;
     scrollHeight := scrollHeight node;
     focused := focused node |}.

(** [node.focus()]. *)
Definition focus (node : TextArea) : TextArea :=
  {| value := value node;
     selectionStart := selectionStart node;
     selectionEnd := selectionEnd node;
     selectionDirection := selectionDirection node;
     scrollHeight := scrollHeight node;
     focused := true |}.

(** The [<div>] behind [nodeMdPreviewWrapper]. *)
Record PreviewWrapper := mkPreviewWrapper {
  pw_scrollHeight : float;
  pw_scrollTop : float
}.

(** The CodeMirror instance behind [nodeEditor]: whether
    [display.cursorDiv] is there, and [doc.scrollTop]. *)
Record CodeMirrorEditor := mkCodeMirrorEditor {
  cursorDiv : bool;
  doc_scrollTop : float
}.

End DOM.

(* ===================================================================== *)
(** ** Props, configuration, state                                        *)
(* ===================================================================== *)

(** [HtmlType]: a string, or a React element. *)
Inductive HtmlType :=
| HtmlString (s : jsstring)
| HtmlElement (r : ref).

(** What [props.renderHTML] returns: [HtmlType | Promise<HtmlType> |
    (() => HtmlType)]. A promise is given by what it settles to, [None]
    when it rejects; a function by what calling it returns. *)
Inductive RenderResult :=
| RenderValue (h : HtmlType)
| RenderPromise (settles : option HtmlType)
| RenderFunction (returns : HtmlType).

(** The props the methods below read. Host callbacks are given by whether
    they are there; their calls are written to the log. *)
Record EditorProps := mkProps {
  p_value : option jsstring;
  p_defaultValue : option jsstring;
  p_renderHTML : option (jsstring -> RenderResult);
  p_onChange : bool;
  p_onScroll : bool
}.

Inductive ChangeTrigger := both | beforeRender | afterRender.

(** [this.config], as [mergeConfig] built it: the two entries read below. *)
Record EditorConfig := mkConfig {
  c_onChangeTrigger : option ChangeTrigger;
  c_syncScrollMode : option (list string)
}.

(** [EditorState]: the fields of [this.state] the methods below touch. *)
Record EditorState := mkState {
  s_text : jsstring;
  s_html : HtmlType;
  s_fullScreen : bool
}.

Inductive PaneType := md | html.

(** [a === b] on the two pane names. *)
Definition same_pane (a b : PaneType) : bool :=
  match a, b with
  | md, md | html, html => true
  | _, _ => false
  end.

(** [{start: number; end: number}]. *)
Record SelRange := mkSelRange { to_start : Z; to_end : Z }.

(** [Selection]. *)
Record Selection := mkSelection {
  sel_start : Z;
  sel_end : Z;
  sel_text : jsstring
}.

(* ===================================================================== *)
(** ** The log and the pending callbacks                                   *)
(* ===================================================================== *)

Inductive StateUpdate :=
| UpdText (text : jsstring)
| UpdHtml (h : HtmlType)
| UpdFullScreen (enable : bool).

(** What [this.emitter.emit] sends, by channel. *)
Inductive Emitted :=
| EVENT_CHANGE (value : jsstring) (event : option ref) (isUndefined : bool)
| EVENT_FULL_SCREEN (enable : bool)
| EVENT_SCROLL (e : ref) (type : PaneType).

Inductive Effect :=
| SetState (u : StateUpdate)
| OnChange (text htmlValue : jsstring) (event : option ref)
| OnScroll (e : ref) (type : PaneType)
| Emit (ev : Emitted)
| ConsoleError (msg : string)
| ScrollWrite (pane : PaneType) (offset : float)
| Uncaught (what : string).

(** The promise [renderHTML] returns: already resolved, or waiting for the
    host's promise. *)
Inductive Rendering :=
| RenderingResolved
| RenderingPending (settles : option HtmlType).

(** A callback handed to the event loop. *)
Inductive Task :=
| TSetSelection (to : SelRange)
| TSyncScroll (type : PaneType)
| TRendered (rendering : Rendering) (reaction : option (option ref))
| TPlaceholder (placeholder : jsstring) (wait : option jsstring).

(** The instance with its log and its pending callbacks. *)
Record World := mkWorld {
  props : EditorProps;
  config : EditorConfig;
  state : EditorState;
  nodeEditor : option DOM.CodeMirrorEditor;
  nodeMdText : option DOM.TextArea;
  nodeMdPreview : option jsstring;
  nodeMdPreviewWrapper : option DOM.PreviewWrapper;
  hasContentChanged : bool;
  scrollScale : float;
  isSyncingScroll : bool;
  shouldSyncScroll : PaneType;
  keyboardListeners : list ref;
  trace : list Effect;
  tasks : list Task
}.

(** Field updates. *)
Definition with_props (x : EditorProps) (w : World) : World :=
  mkWorld x (config w) (state w) (nodeEditor w) (nodeMdText w) (nodeMdPreview w)
    (nodeMdPreviewWrapper w) (hasContentChanged w) (scrollScale w)
    (isSyncingScroll w) (shouldSyncScroll w) (keyboardListeners w) (trace w) (tasks w).

Definition with_state (x : EditorState) (w : World) : World :=
  mkWorld (props w) (config w) x (nodeEditor w) (nodeMdText w) (nodeMdPreview w)
    (nodeMdPreviewWrapper w) (hasContentChanged w) (scrollScale w)
    (isSyncingScroll w) (shouldSyncScroll w) (keyboardListeners w) (trace w) (tasks w).

Definition with_nodeEditor (x : option DOM.CodeMirrorEditor) (w : World) : World :=
  mkWorld (props w) (config w) (state w) x (nodeMdText w) (nodeMdPreview w)
    (nodeMdPreviewWrapper w) (hasContentChanged w) (scrollScale w)
    (isSyncingScroll w) (shouldSyncScroll w) (keyboardListeners w) (trace w) (tasks w).

Definition with_nodeMdText (x : option DOM.TextArea) (w : World) : World :=
  mkWorld (props w) (config w) (state w) (nodeEditor w) x (nodeMdPreview w)
    (nodeMdPreviewWrapper w) (hasContentChanged w) (scrollScale w)
    (isSyncingScroll w) (shouldSyncScroll w) (keyboardListeners w) (trace w) (tasks w).

Definition with_nodeMdPreviewWrapper (x : option DOM.PreviewWrapper) (w : World) : World :=
  mkWorld (props w) (config w) (state w) (nodeEditor w) (nodeMdText w) (nodeMdPreview w)
    x (hasContentChanged w) (scrollScale w)
    (isSyncingScroll w) (shouldSyncScroll w) (keyboardListeners w) (trace w) (tasks w).

Definition with_hasContentChanged (x : bool) (w : World) : World :=
  mkWorld (props w) (config w) (state w) (nodeEditor w) (nodeMdText w) (nodeMdPreview w)
    (nodeMdPreviewWrapper w) x (scrollScale w)
    (isSyncingScroll w) (shouldSyncScroll w) (keyboardListeners w) (trace w) (tasks w).

Definition with_scrollScale (x : float) (w : World) : World :=
  mkWorld (props w) (config w) (state w) (nodeEditor w) (nodeMdText w) (nodeMdPreview w)
    (nodeMdPreviewWrapper w) (hasContentChanged w) x
    (isSyncingScroll w) (shouldSyncScroll w) (keyboardListeners w) (trace w) (tasks w).

Definition with_isSyncingScroll (x : bool) (w : World) : World :=
  mkWorld (props w) (config w) (state w) (nodeEditor w) (nodeMdText w) (nodeMdPreview w)
    (nodeMdPreviewWrapper w) (hasContentChanged w) (scrollScale w)
    x (shouldSyncScroll w) (keyboardListeners w) (trace w) (tasks w).

Definition with_shouldSyncScroll (x : PaneType) (w : World) : World :=
  mkWorld (props w) (config w) (state w) (nodeEditor w) (nodeMdText w) (nodeMdPreview w)
    (nodeMdPreviewWrapper w) (hasContentChanged w) (scrollScale w)
    (isSyncingScroll w) x (keyboardListeners w) (trace w) (tasks w).

Definition with_keyboardListeners (x : list ref) (w : World) : World :=
  mkWorld (props w) (config w) (state w) (nodeEditor w) (nodeMdText w) (nodeMdPreview w)
    (nodeMdPreviewWrapper w) (hasContentChanged w) (scrollScale w)
    (isSyncingScroll w) (shouldSyncScroll w) x (trace w) (tasks w).

Definition with_trace (x : list Effect) (w : World) : World :=
  mkWorld (props w) (config w) (state w) (nodeEditor w) (nodeMdText w) (nodeMdPreview w)
    (nodeMdPreviewWrapper w) (hasContentChanged w) (scrollScale w)
    (isSyncingScroll w) (shouldSyncScroll w) (keyboardListeners w) x (tasks w).

Definition with_tasks (x : list Task) (w : World) : World :=
  mkWorld (props w) (config w) (state w) (nodeEditor w) (nodeMdText w) (nodeMdPreview w)
    (nodeMdPreviewWrapper w) (hasContentChanged w) (scrollScale w)
    (isSyncingScroll w) (shouldSyncScroll w) (keyboardListeners w) (trace w) x.

(** Something the instance does to its host, appended to the log. *)
Definition log (e : Effect) (w : World) : World :=
  with_trace (trace w ++ [e]) w.

(** [setTimeout(cb)], [requestAnimationFrame(cb)], [promise.then(cb)]. *)
Definition schedule (t : Task) (w : World) : World :=
  with_tasks (tasks w ++ [t]) w.

(** [this.setState(update)]. *)
Definition setState (u : StateUpdate) (w : World) : World :=
  let st := state w in
  let st' :=
    match u with
    | UpdText t => mkState t (s_html st) (s_fullScreen st)
    | UpdHtml h => mkState (s_text st) h (s_fullScreen st)
    | UpdFullScreen b => mkState (s_text st) (s_html st) b
    end in
  log (SetState u) (with_state st' w).

(** [promise.then(cb)] on the promise [renderHTML] returned, [cb] being the
    "after render" notification of [setText] when there is one. A promise
    that waits for the host keeps its own reaction ([setHtml]) pending
    whether or not anything is chained to it. *)
Definition chain (rendering : Rendering) (reaction : option (option ref))
    (w : World) : World :=
  match rendering, reaction with
  | RenderingResolved, None => w
  | _, _ => schedule (TRendered rendering reaction) w
  end.

(* ===================================================================== *)
(** ** The methods of [Editor]                                             *)
(* ===================================================================== *)

(** [getMdValue()]. *)
Definition getMdValue (w : World) : jsstring := s_text (state w).

(** [getHtmlValue()]. *)
Definition getHtmlValue (w : World) : jsstring :=
  match s_html (state w) with
  | HtmlString s => s
  | HtmlElement _ =>
      match nodeMdPreview w with
      | Some getHtml => getHtml
      | None => []
      end
  end.

(** [setHtml(html)]: the executor of the new promise runs at once and calls
    [setState], whose callback resolves the promise. *)
Definition setHtml (h : HtmlType) (w : World) : Rendering * World :=
  (RenderingResolved, setState (UpdHtml h) w).

(** [renderHTML(markdownText)]. *)
Definition renderHTML (markdownText : jsstring) (w : World) : Rendering * World :=
  match p_renderHTML (props w) with
  | None => (RenderingResolved, log (ConsoleError "renderHTML props is required!") w)
  | Some f =>
      match f markdownText with
      | RenderPromise settles => (RenderingPending settles, w)
      | RenderFunction res => setHtml res w
      | RenderValue res => setHtml res w
      end
  end.

(** [setSelection(to)]. *)
Definition setSelection (to : SelRange) (w : World) : World :=
  match nodeMdText w with
  | Some node =>
      with_nodeMdText
        (Some (DOM.focus (DOM.setSelectionRange (to_start to) (to_end to) DOM.forward node))) w
  | None => w
  end.

(** [clearSelection()]. *)
Definition clearSelection (w : World) : World :=
  match nodeMdText w with
  | Some node => with_nodeMdText (Some (DOM.setSelectionRange 0 0 DOM.none node)) w
  | None => w
  end.

(** [setText(value = '', event?, newSelection?)]. *)
Definition setText (value : option jsstring) (event : option ref)
    (newSelection : option SelRange) (w : World) : World :=
  let value := default [] value in
  let onChangeTrigger := default both (c_onChangeTrigger (config w)) in
  let text := JS.replace_sentinel value in
  if JS.str_eq (s_text (state w)) value then w
  else
    let w := setState (UpdText text) w in
    let w :=
      if p_onChange (props w) &&
         match onChangeTrigger with both | beforeRender => true | afterRender => false end
      then log (OnChange text (getHtmlValue w) event) w
      else w in
    let w := log (Emit (EVENT_CHANGE value event (bool_decide (event = None)))) w in
    let w :=
      match newSelection with
      | Some to => schedule (TSetSelection to) w
      | None => w
      end in
    let w := if negb (hasContentChanged w) then with_hasContentChanged true w else w in
    let '(rendering, w) := renderHTML text w in
    match onChangeTrigger with
    | both | afterRender => chain rendering (Some event) w
    | beforeRender => chain rendering None w
    end.

(** The reaction [setText] chains to the rendering promise. *)
Definition afterRenderNotify (event : option ref) (w : World) : World :=
  if p_onChange (props w)
  then log (OnChange (s_text (state w)) (getHtmlValue w) event) w
  else w.

(** [handleChange2(value)], the change handler given to CodeMirror. *)
Definition handleChange2 (value : jsstring) (w : World) : World :=
  setText (Some value) None None w.

(** [fullScreen(enable)]. *)
Definition fullScreen (enable : bool) (w : World) : World :=
  if negb (Bool.eqb (s_fullScreen (state w)) enable)
  then log (Emit (EVENT_FULL_SCREEN enable)) (setState (UpdFullScreen enable) w)
  else w.

(** [isFullScreen()]. *)
Definition isFullScreen (w : World) : bool := s_fullScreen (state w).

(** The callback [handleSyncScroll] gives to [requestAnimationFrame]; with
    [nodeEditor] not yet set, reading [this.nodeEditor.display] throws and
    the rest of the callback does not run. *)
Definition syncScrollCallback (type : PaneType) (w : World) : World :=
  match nodeEditor w with
  | None => log (Uncaught "TypeError") w
  | Some editor =>
      let w :=
        match DOM.cursorDiv editor, nodeMdPreviewWrapper w with
        | true, Some wrapper =>
            match type with
            | md =>
                let top := (DOM.doc_scrollTop editor / scrollScale w)%float in
                log (ScrollWrite html top)
                  (with_nodeMdPreviewWrapper
                     (Some (DOM.mkPreviewWrapper (DOM.pw_scrollHeight wrapper) top)) w)
            | html =>
                let top := (DOM.pw_scrollTop wrapper * scrollScale w)%float in
                log (ScrollWrite md top)
                  (with_nodeEditor
                     (Some (DOM.mkCodeMirrorEditor (DOM.cursorDiv editor) top)) w)
            end
        | _, _ => w
        end in
      with_isSyncingScroll false w
  end.

(** [handleSyncScroll(type, e)]. *)
Definition handleSyncScroll (type : PaneType) (e : ref) (w : World) : World :=
  if negb (same_pane type (shouldSyncScroll w)) then w
  else
    let w := if p_onScroll (props w) then log (OnScroll e type) w else w in
    let w := log (Emit (EVENT_SCROLL e type)) w in
    let syncScrollMode := default [] (c_syncScrollMode (config w)) in
    let wanted :=
      match type with
      | md => "rightFollowLeft"%string
      | html => "leftFollowRight"%string
      end in
    if negb (existsb (String.eqb wanted) syncScrollMode) then w
    else
      let w :=
        match hasContentChanged w, nodeMdText w, nodeMdPreviewWrapper w with
        | true, Some input, Some wrapper =>
            with_hasContentChanged false
              (with_scrollScale
                 (DOM.scrollHeight input / DOM.pw_scrollHeight wrapper)%float w)
        | _, _, _ => w
        end in
      if negb (isSyncingScroll w)
      then schedule (TSyncScroll type) (with_isSyncingScroll true w)
      else w.

(** [onMouseOver] of the preview wrapper. *)
Definition previewMouseOver (w : World) : World :=
  with_shouldSyncScroll html w.

(** [constructor(props)], with the configuration [mergeConfig] returned.
    The refs are created empty and [nodeEditor] is not yet assigned. *)
Definition constructor (props : EditorProps) (config : EditorConfig) : World :=
  mkWorld props config
    (mkState
       (JS.replace_sentinel
          (JS.or_empty (JS.or_else (p_value props) (p_defaultValue props))))
       (HtmlString []) false)
    None None None None
    true 1%float false md
    [] [] [].

(** [componentDidMount()]: the first rendering; its promise is dropped. *)
Definition componentDidMount (w : World) : World :=
  let '(rendering, w) := renderHTML (s_text (state w)) w in
  chain rendering None w.

(** [componentDidUpdate(prevProps)], the part that follows [props.value]
    ([value] is a string by its type, so no conversion takes place). *)
Definition componentDidUpdate (w : World) : World :=
  match p_value (props w) with
  | Some v =>
      if negb (JS.str_eq v (s_text (state w))) then
        let value := JS.replace_sentinel v in
        if negb (JS.str_eq (s_text (state w)) value) then
          let w := setState (UpdText value) w in
          let '(rendering, w) := renderHTML value w in
          chain rendering None w
        else w
      else w
  | None => w
  end.

(** The reaction [insertPlaceholder] chains to [wait]. *)
Definition placeholderResolved (placeholder str : jsstring) (w : World) : World :=
  let text := JS.replace (getMdValue w) placeholder str in
  setText (Some text) None None w.

(** What a pending callback does when the event loop runs it. A rejected
    promise runs none of the reactions chained to it. *)
Definition runTask (t : Task) (w : World) : World :=
  match t with
  | TSetSelection to => setSelection to w
  | TSyncScroll type => syncScrollCallback type w
  | TRendered rendering reaction =>
      let notify w :=
        match reaction with
        | Some event => afterRenderNotify event w
        | None => w
        end in
      match rendering with
      | RenderingResolved => notify w
      | RenderingPending (Some r) => notify (snd (setHtml r w))
      | RenderingPending None => log (Uncaught "unhandled rejection") w
      end
  | TPlaceholder placeholder (Some str) => placeholderResolved placeholder str w
  | TPlaceholder placeholder None => log (Uncaught "unhandled rejection") w
  end.

(** The event loop takes the [i]th pending callback and runs it. *)
Definition run_task (i : nat) (w : World) : World :=
  match tasks w !! i with
  | Some t => runTask t (with_tasks (delete i (tasks w)) w)
  | None => w
  end.

Section Selections.

(** [initialSelection], imported from [share/var]. *)
Variable initialSelection : Selection.

(** [getSelection()]. *)
Definition getSelection (w : World) : Selection :=
  match nodeMdText w with
  | None => initialSelection
  | Some source =>
      let start := DOM.selectionStart source in
      let end_ := DOM.selectionEnd source in
      let text := JS.slice (DOM.value source) start end_ in
      mkSelection start end_ text
  end.

(** [insertText(value = '', replaceSelected = false, newSelection?)]. *)
Definition insertText (value : option jsstring) (replaceSelected : option bool)
    (newSelection : option SelRange) (w : World) : World :=
  let value := default [] value in
  let replaceSelected := default false replaceSelected in
  let text := s_text (state w) in
  let selection := getSelection w in
  let beforeContent := JS.slice text 0 (sel_start selection) in
  let afterContent :=
    JS.slice text
      (if replaceSelected then sel_end selection else sel_start selection)
      (Z.of_nat (length text)) in
  setText (Some (beforeContent ++ value ++ afterContent)) None
    (Some
       match newSelection with
       | Some to =>
           mkSelRange (to_start to + Z.of_nat (length beforeContent))
                      (to_end to + Z.of_nat (length beforeContent))
       | None => mkSelRange (sel_start selection) (sel_start selection)
       end)
    w.

(** [insertPlaceholder(placeholder, wait)]; [wait] is given by the string
    it resolves to, [None] when it rejects. *)
Definition insertPlaceholder (placeholder : jsstring) (wait : option jsstring)
    (w : World) : World :=
  schedule (TPlaceholder placeholder wait)
    (insertText (Some placeholder) (Some true) None w).

(** What can happen to a constructed instance: React mounts it (attaching
    the refs [render] passes on and calling [componentDidMount], after
    CodeMirror's [onInit] has set [nodeEditor]), the host passes new props
    or React re-renders ([componentDidUpdate]), the panes are laid out or
    scrolled, a method is called, an event arrives, a pending callback
    runs. *)
Inductive Action :=
| Mount (editor : DOM.CodeMirrorEditor) (getHtml : jsstring) (wrapper : DOM.PreviewWrapper)
| NewProps (props : EditorProps)
| Layout (editor : DOM.CodeMirrorEditor) (wrapper : DOM.PreviewWrapper)
| CallSetText (value : option jsstring) (event : option ref) (newSelection : option SelRange)
| CallInsertText (value : option jsstring) (replaceSelected : option bool)
    (newSelection : option SelRange)
| CallInsertPlaceholder (placeholder : jsstring) (wait : option jsstring)
| CallSetSelection (to : SelRange)
| CallClearSelection
| CallFullScreen (enable : bool)
| CallOnKeyboard (data : KeyboardArg)
| CallOffKeyboard (data : KeyboardArg)
| Change (value : jsstring)
| Scroll (type : PaneType) (e : ref)
| MouseOverPreview
| RunTask (i : nat).

(** [render] attaches [nodeMdPreview] and [nodeMdPreviewWrapper]; the
    [<textarea ref={this.nodeMdText}>] is commented out of it, so
    [nodeMdText] stays empty. *)
Definition perform (a : Action) (w : World) : World :=
  match a with
  | Mount editor getHtml wrapper =>
      componentDidMount
        (mkWorld (props w) (config w) (state w) (Some editor) (nodeMdText w)
           (Some getHtml) (Some wrapper) (hasContentChanged w) (scrollScale w)
           (isSyncingScroll w) (shouldSyncScroll w) (keyboardListeners w)
           (trace w) (tasks w))
  | NewProps props => componentDidUpdate (with_props props w)
  | Layout editor wrapper =>
      let w :=
        match nodeEditor w with
        | Some _ => with_nodeEditor (Some editor) w
        | None => w
        end in
      match nodeMdPreviewWrapper w with
      | Some _ => with_nodeMdPreviewWrapper (Some wrapper) w
      | None => w
      end
  | CallSetText value event newSelection => setText value event newSelection w
  | CallInsertText value replaceSelected newSelection =>
      insertText value replaceSelected newSelection w
  | CallInsertPlaceholder placeholder wait => insertPlaceholder placeholder wait w
  | CallSetSelection to => setSelection to w
  | CallClearSelection => clearSelection w
  | CallFullScreen enable => fullScreen enable w
  | CallOnKeyboard data =>
      with_keyboardListeners (onKeyboard data (keyboardListeners w)) w
  | CallOffKeyboard data =>
      with_keyboardListeners (offKeyboard data (keyboardListeners w)) w
  | Change value => handleChange2 value w
  | Scroll type e => handleSyncScroll type e w
  | MouseOverPreview => previewMouseOver w
  | RunTask i => run_task i w
  end.

Definition run (actions : list Action) (w : World) : World :=
  foldl (fun w a => perform a w) w actions.

End Selections.

(* ===================================================================== *)
(** ** What the properties below observe                                  *)
(* ===================================================================== *)

(** The pending callbacks that [requestAnimationFrame] holds. *)
Definition is_frame_callback (t : Task) : bool :=
  match t with
  | TSyncScroll _ => true
  | _ => false
  end.

Fixpoint pending_frames (ts : list Task) : nat :=
  match ts with
  | [] => 0
  | t :: ts' => (if is_frame_callback t then 1 else 0) + pending_frames ts'
  end.

(** How many entries of a log satisfy a test. *)
Fixpoint count_effects (test : Effect → bool) (tr : list Effect) : nat :=
  match tr with
  | [] => 0
  | e :: tr' => (if test e then 1 else 0) + count_effects test tr'
  end.

(** The tests: a [setState] of the text, a change notification sent
    through the emitter, a call of [props.onChange], a write to a pane's
    scroll offset. *)
Definition is_text_update (e : Effect) : bool :=
  match e with
  | SetState (UpdText _) => true
  | _ => false
  end.

Definition is_change_event (e : Effect) : bool :=
  match e with
  | Emit (EVENT_CHANGE _ _ _) => true
  | _ => false
  end.

Definition is_onChange_call (e : Effect) : bool :=
  match e with
  | OnChange _ _ _ => true
  | _ => false
  end.

Definition is_scroll_write (e : Effect) : bool :=
  match e with
  | ScrollWrite _ _ => true
  | _ => false
  end.

(** A test that does not count what rendering writes to the log, nor a
    call of [props.onChange]. *)
Definition ignores_rendering (test : Effect → bool) : Prop :=
  (∀ msg, test (ConsoleError msg) = false) ∧
  (∀ h, test (SetState (UpdHtml h)) = false) ∧
  (∀ t h e, test (OnChange t h e) = false).



(** What the methods on the text side (rendering, [setText] and what
    calls it, [fullScreen]) leave alone. *)
Definition scroll_side (w : World) :=
  (nodeEditor w, nodeMdText w, nodeMdPreviewWrapper w, scrollScale w,
   isSyncingScroll w, shouldSyncScroll w, keyboardListeners w,
   pending_frames (tasks w)).

(** [w'] comes from [w] by steps of the text side: the scroll side is as
    it was, and the text has not acquired a sentinel. *)
Record evolves (w w' : World) : Prop := mkEvolves {
  ev_scroll_side : scroll_side w' = scroll_side w;
  ev_text : JS.SENTINEL ∉ s_text (state w) → JS.SENTINEL ∉ s_text (state w')
}.

(** A burst of scroll events, each with the pane it comes from. *)
Definition scroll_burst (events : list (PaneType * ref)) (w : World) : World :=
  foldl (λ w ev, handleSyncScroll ev.1 ev.2 w) w events.

(** The flag [isSyncingScroll] accounts for the pending frame callbacks:
    there is none unless it is set, and then there is at most one. *)
Definition frames_accounted (w : World) : Prop :=
  pending_frames (tasks w) ≤ (if isSyncingScroll w then 1 else 0).

(** What holds of an instance however it has been used. *)
Record Invariant (w : World) : Prop := mkInvariant {
  inv_text : JS.SENTINEL ∉ s_text (state w);
  inv_nodeMdText : nodeMdText w = None;
  inv_scrollScale : scrollScale w = 1%float;
  inv_frames : frames_accounted w;
  inv_listeners : NoDup (keyboardListeners w)
}.

(* ===================================================================== *)
(** ** A sample instance                                                  *)
(* ===================================================================== *)

(** A host that renders at once, listens to changes, and asks for the
    preview to follow the editor; its text is "a↵b". *)
Definition sample_render (t : jsstring) : RenderResult :=
  RenderValue (HtmlString (JS.lit "<p>" ++ t ++ JS.lit "</p>")).

Definition sample_text : jsstring := JS.lit "a" ++ [JS.SENTINEL] ++ JS.lit "b".

Definition sample_props : EditorProps :=
  mkProps (Some sample_text) None (Some sample_render) true false.

Definition sample_config : EditorConfig :=
  mkConfig None (Some ["rightFollowLeft"%string]).

(** A value for [initialSelection], which the source imports from
    [share/var]: the empty selection at offset 0. *)
Definition sample_initialSelection : Selection := mkSelection 0 0 [].

(** The sample instance once mounted: the editor is scrolled to offset 50
    and the preview, of scrollable height 100, is at its top. *)
Definition sample_mounted : World :=
  run sample_initialSelection
    [Mount (DOM.mkCodeMirrorEditor true 50%float) []
       (DOM.mkPreviewWrapper 100%float 0%float)]
    (constructor sample_props sample_config).


(* ===================================================================== *)
(** ** The plugins of an instance: [getPlugins]                           *)
(* ===================================================================== *)

(** [React.createElement(it.comp, {editor: this, editorConfig: this.config,
    config, key})]: the component, the merged configuration and the key;
    the other two props are the instance and its configuration. *)
Record Element (V : Type) := mkElement {
  el_comp : ref;
  el_config : gmap string V;
  el_key : string
}.

Arguments mkElement {V} _ _ _.
Arguments el_comp {V} _.
Arguments el_config {V} _.
Arguments el_key {V} _.

Section GetPlugins.

(** Configurations are objects: maps from property names to values. What
    [getPlugins] reads of a component is its static [pluginName], [align]
    and [defaultConfig]; [DividerPlugin] is imported from
    [plugins/divider]. *)
Variable V : Type.
Variable pluginName : ref → string.
Variable align : ref → string.
Variable defaultConfig : ref → option (gmap string V).
Variable DividerPlugin : ref.

(** The loop of [addToPlugins]: the first entry of [Editor.plugins] with
    [it.comp.pluginName === name]. *)
Fixpoint first_named (name : string)
    (registry : list (Plugins.Plugin (gmap string V)))
    : option (Plugins.Plugin (gmap string V)) :=
  match registry with
  | [] => None
  | it :: rest =>
      if String.eqb (pluginName (Plugins.comp it)) name then Some it
      else first_named name rest
  end.

(** [addToPlugins(name)], on the local array [plugins]. *)
Definition addToPlugins (registry : list (Plugins.Plugin (gmap string V)))
    (name : string) (plugins : list (Plugins.Plugin (gmap string V)))
    : list (Plugins.Plugin (gmap string V)) :=
  if String.eqb name (pluginName DividerPlugin)
  then plugins ++ [Plugins.mkPlugin DividerPlugin ∅]
  else match first_named name registry with
       | Some it => plugins ++ [it]
       | None => plugins
       end.

(** The names the alias 'fonts' stands for, in the order of the calls. *)
Definition fonts : list string :=
  ["font-bold"; "font-italic"; "font-underline"; "font-strikethrough";
   "list-unordered"; "list-ordered"; "block-quote"; "block-wrap";
   "block-code-inline"; "block-code-block"]%string.

(** The first half of [getPlugins]: the array [plugins]. An array, empty or
    not, is truthy, so only an absent [props.plugins] selects the whole
    registry. *)
Definition selectPlugins (registry : list (Plugins.Plugin (gmap string V)))
    (props_plugins : option (list string))
    : list (Plugins.Plugin (gmap string V)) :=
  match props_plugins with
  | Some names =>
      foldl
        (λ plugins name,
           if String.eqb name "fonts"
           then foldl (λ plugins name, addToPlugins registry name plugins) plugins fonts
           else addToPlugins registry name plugins)
        [] names
  | None => registry
  end.

(** The element made of an entry: [{...(it.comp.defaultConfig || {}),
    ...(it.config || {})}] lets the entry's configuration win. *)
Definition createElement (it : Plugins.Plugin (gmap string V)) : Element V :=
  mkElement (Plugins.comp it)
    (Plugins.config it ∪ default ∅ (defaultConfig (Plugins.comp it)))
    (pluginName (Plugins.comp it)).

(** The second half of [getPlugins]: the object [result], keyed by
    [it.comp.align]. *)
Definition groupPlugins (plugins : list (Plugins.Plugin (gmap string V)))
    : gmap string (list (Element V)) :=
  foldl
    (λ result it,
       let result :=
         match result !! align (Plugins.comp it) with
         | None => <[align (Plugins.comp it) := []]> result
         | Some _ => result
         end in
       <[align (Plugins.comp it) :=
           default [] (result !! align (Plugins.comp it)) ++ [createElement it]]> result)
    ∅ plugins.

(** [getPlugins()]. *)
Definition getPlugins (registry : list (Plugins.Plugin (gmap string V)))
    (props_plugins : option (list string)) : gmap string (list (Element V)) :=
  groupPlugins (selectPlugins registry props_plugins).

(** [getPluginAt(at)] of [render]: [this.state.plugins[at] || []]. *)
Definition getPluginAt (plugins : gmap string (list (Element V))) (at_ : string)
    : list (Element V) :=
  default [] (plugins !! at_).

(** What each name of [props.plugins] stands for. *)
Definition expand_name (name : string) : list string :=
  if String.eqb name "fonts" then fonts else [name].

Definition resolve_name (registry : list (Plugins.Plugin (gmap string V)))
    (name : string) : list (Plugins.Plugin (gmap string V)) :=
  if String.eqb name (pluginName DividerPlugin)
  then [Plugins.mkPlugin DividerPlugin ∅]
  else option_list (first_named name registry).

End GetPlugins.

Arguments first_named {V} _ _ _.
Arguments addToPlugins {V} _ _ _ _ _.
Arguments selectPlugins {V} _ _ _ _.
Arguments createElement {V} _ _ _.
Arguments groupPlugins {V} _ _ _ _.
Arguments getPlugins {V} _ _ _ _ _ _.
Arguments getPluginAt {V} _ _.
Arguments resolve_name {V} _ _ _ _.

(** The listeners an argument of [onKeyboard] or [offKeyboard] names. *)
Definition arg_listeners (data : KeyboardArg) : list ref :=
  match data with
  | OneListener it => [it]
  | ListenerArray its => its
  end.

(* ===================================================================== *)
(** ** Key presses: [handleKeyDown]                                       *)
(* ===================================================================== *)

(** What [handleKeyDown(e)] does: it calls [e.preventDefault()] and the
    callback of one listener, or emits the key-down event. *)
Inductive KeyOutcome :=
| CallbackOf (it : ref)
| KeyDownEmitted.

Section KeyDown.

(** [isKeyMatch(e, it)], imported from [utils/tool]. *)
Variable isKeyMatch : ref → ref → bool.

(** [handleKeyDown(e)], on the listener list of the instance. *)
Fixpoint handleKeyDown (e : ref) (keyboardListeners : list ref) : KeyOutcome :=
  match keyboardListeners with
  | [] => KeyDownEmitted
  | it :: rest =>
      if isKeyMatch e it then CallbackOf it else handleKeyDown e rest
  end.

End KeyDown.

(* ===================================================================== *)
(** ** Running pending callbacks                                          *)
(* ===================================================================== *)

(** The event loop runs the given callbacks one after the other. *)
Definition run_all (ts : list Task) (w : World) : World :=
  foldl (λ w t, runTask t w) w ts.

(** The callbacks a method left pending: those of [w'] past those of [w]. *)
Definition scheduled_since (w w' : World) : list Task :=
  drop (length (tasks w)) (tasks w').

(** The promise [renderHTML(t)] returns, which the props decide. *)
Definition rendering_of (w : World) (t : jsstring) : Rendering :=
  match p_renderHTML (props w) with
  | None => RenderingResolved
  | Some f =>
      match f t with
      | RenderPromise settles => RenderingPending settles
      | _ => RenderingResolved
      end
  end.

(** What [setText] chains to that promise: its "after render" notification
    unless the trigger is 'beforeRender'. *)
Definition reaction_of (w : World) (event : option ref) : option (option ref) :=
  match default both (c_onChangeTrigger (config w)) with
  | both | afterRender => Some event
  | beforeRender => None
  end.

(** The callbacks [chain] leaves pending. *)
Definition chained (rendering : Rendering) (reaction : option (option ref)) : list Task :=
  match rendering, reaction with
  | RenderingResolved, None => []
  | _, _ => [TRendered rendering reaction]
  end.

(** How often [props.onChange] is called when the text changes, before
    the rendering and after it. *)
Definition calls_before (w : World) : nat :=
  if p_onChange (props w)
  then match default both (c_onChangeTrigger (config w)) with
       | both | beforeRender => 1
       | afterRender => 0
       end
  else 0.

Definition calls_after (w : World) (t : jsstring) : nat :=
  if p_onChange (props w)
  then match reaction_of w None, rendering_of w t with
       | Some _, RenderingPending None => 0
       | Some _, _ => 1
       | None, _ => 0
       end
  else 0.

(** The host's render function gives [h] for [t], in one of the three
    shapes. *)
Definition renders (w : World) (t : jsstring) (h : HtmlType) : Prop :=
  ∃ f, p_renderHTML (props w) = Some f
       ∧ (f t = RenderValue h ∨ f t = RenderFunction h ∨ f t = RenderPromise (Some h)).

(** A registry of three plugins, and what their components and the
    divider (component 0) declare. *)
Definition sample_registry : list (Plugins.Plugin (gmap string N)) :=
  [Plugins.mkPlugin 1%N ∅; Plugins.mkPlugin 2%N {["size" := 3%N]}; Plugins.mkPlugin 3%N ∅].

Definition sample_pluginName (c : ref) : string :=
  if N.eqb c 0%N then "divider"
  else if N.eqb c 1%N then "font-bold"
  else if N.eqb c 2%N then "table"
  else "clear".

Definition sample_align (c : ref) : string :=
  if N.eqb c 3%N then "right" else "left".

Definition sample_defaultConfig (c : ref) : option (gmap string N) :=
  if N.eqb c 2%N then Some {["size" := 1%N; "rows" := 4%N]} else None.

(** A key event matches the listener of the same number, and listener 9
    matches every event. *)
Definition sample_isKeyMatch (e it : ref) : bool :=
  N.eqb e it || N.eqb it 9%N.

(** What [handleSyncScroll] tells the host of one scroll event: the
    [onScroll] prop, when given, then the emitter. *)
Definition scroll_report (w : World) (ev : PaneType * ref) : list Effect :=
  (if p_onScroll (props w) then [OnScroll ev.2 ev.1] else [])
  ++ [Emit (EVENT_SCROLL ev.2 ev.1)].

(** The events of a burst that come from the pane [active]. *)
Definition from_pane (active : PaneType) (events : list (PaneType * ref)) :
    list (PaneType * ref) :=
  filter (λ ev, same_pane ev.1 active = true) events.




(* ===================================================================== *)
(** * Properties                                                           *)
(* ===================================================================== *)

(** ** Arrays: [splice], [indexOf], [includes]                             *)

Lemma splice_replace {A} (i : nat) (x : A) (l : list A) :
  i < length l → JS.splice i 1 [x] l = <[i:=x]> l.
Proof.
  intros Hi. unfold JS.splice.
  rewrite insert_take_drop by done.
  by replace (i + 1) with (S i) by lia.
Qed.

Lemma splice_remove {A} (i : nat) (l : list A) :
  JS.splice i 1 [] l = delete i l.
Proof.
  unfold JS.splice. rewrite delete_take_drop.
  by replace (i + 1) with (S i) by lia.
Qed.

Lemma includes_elem_of (l : list ref) (x : ref) :
  JS.includes l x = true ↔ x ∈ l.
Proof.
  unfold JS.includes. rewrite existsb_exists. split.
  - intros (y & Hy & Heq). apply N.eqb_eq in Heq. subst y.
    by apply list_elem_of_In.
  - intros Hx. exists x. split; [by apply list_elem_of_In | apply N.eqb_refl].
Qed.

Lemma indexOf_bounds (l : list ref) (x : ref) :
  (-1 ≤ JS.indexOf l x < Z.of_nat (length l))%Z.
Proof.
  induction l as [|y l IH]; simpl; [lia|].
  destruct (N.eqb y x); [lia|].
  destruct (Z.ltb_spec (JS.indexOf l x) 0); lia.
Qed.

Lemma indexOf_absent (l : list ref) (x : ref) :
  x ∉ l → JS.indexOf l x = (-1)%Z.
Proof.
  induction l as [|y l IH]; simpl; [done|].
  intros [Hne Hl]%not_elem_of_cons.
  destruct (N.eqb_spec y x); [congruence|].
  rewrite IH by done. done.
Qed.

Lemma indexOf_present (l : list ref) (x : ref) :
  x ∈ l →
  ∃ i, JS.indexOf l x = Z.of_nat i ∧ l !! i = Some x ∧ x ∉ take i l.
Proof.
  induction l as [|y l IH]; simpl.
  - by intros ?%elem_of_nil.
  - intros Hx. destruct (N.eqb_spec y x) as [->|Hne].
    + exists 0. split_and!; [done | done | simpl; apply not_elem_of_nil].
    + apply elem_of_cons in Hx as [?|Hx]; [congruence|].
      destruct (IH Hx) as (i & Hi & Hl & Hfirst).
      exists (S i). rewrite Hi.
      destruct (Z.ltb_spec (Z.of_nat i) 0); [lia|].
      split_and!; [lia | done |].
      simpl. apply not_elem_of_cons. split; [congruence | done].
Qed.

(** ** The plugin registry                                                 *)

Section PluginRegistryFacts.
Context {Config : Type} (emptyConfig : Config).
Implicit Types (plugins : list (Plugins.Plugin Config)) (c : ref).

Lemma first_with_comp_Some c plugins i0 i :
  Plugins.first_with_comp c plugins i0 = Some i →
  ∃ k old, i = i0 + k ∧ plugins !! k = Some old ∧ Plugins.comp old = c ∧
           ∀ j q, j < k → plugins !! j = Some q → Plugins.comp q ≠ c.
Proof.
  revert i0. induction plugins as [|p rest IH]; intros i0; simpl; [done|].
  destruct (N.eqb_spec (Plugins.comp p) c) as [Heq|Hne].
  - intros [= <-]. exists 0, p. split_and!; [lia | done | done | lia].
  - intros (k & old & -> & Hk & Hc & Hfirst)%IH.
    exists (S k), old. split_and!; [lia | done | done |].
    intros [|j] q Hj; simpl; [by intros [= <-] | intros Hq].
    apply (Hfirst j q); [lia | done].
Qed.

Lemma first_with_comp_None c plugins i0 :
  Plugins.first_with_comp c plugins i0 = None ↔ c ∉ Plugins.comp <$> plugins.
Proof.
  revert i0. induction plugins as [|p rest IH]; intros i0; simpl.
  - split; [intros _; apply not_elem_of_nil | done].
  - rewrite not_elem_of_cons.
    destruct (N.eqb_spec (Plugins.comp p) c) as [Heq|Hne].
    + split; [done | intros [? _]; congruence].
    + rewrite IH. split; [intros ?; split; [congruence | done] | by intros [_ ?]].
Qed.

Lemma first_with_comp_is_Some c plugins :
  c ∈ Plugins.comp <$> plugins → is_Some (Plugins.first_with_comp c plugins 0).
Proof.
  intros Hin. destruct (Plugins.first_with_comp c plugins 0) eqn:E; [by eexists|].
  by apply first_with_comp_None in E.
Qed.

(** C7. Registering a component that is already in the registry replaces
    its (first) entry where it stands: the entry at that index becomes the
    new [{comp, config}], every other index keeps its entry and the length
    is unchanged. Registering a component that is not in the registry
    appends the new entry at the end. *)
Theorem use_replaces_in_place_or_appends c cfg plugins :
  (c ∈ Plugins.comp <$> plugins →
     ∃ i old,
       plugins !! i = Some old ∧ Plugins.comp old = c ∧
       (∀ j q, j < i → plugins !! j = Some q → Plugins.comp q ≠ c) ∧
       Plugins.use emptyConfig c cfg plugins
         = <[i := Plugins.mkPlugin c (default emptyConfig cfg)]> plugins ∧
       length (Plugins.use emptyConfig c cfg plugins) = length plugins)
  ∧ (c ∉ Plugins.comp <$> plugins →
     Plugins.use emptyConfig c cfg plugins
       = plugins ++ [Plugins.mkPlugin c (default emptyConfig cfg)]).
Proof.
  split.
  - intros [i Hi]%first_with_comp_is_Some.
    destruct (first_with_comp_Some _ _ _ _ Hi) as (k & old & -> & Hk & Hc & Hfirst).
    exists k, old. simpl in Hi.
    assert (k < length plugins) as Hlen by (by eapply lookup_lt_Some).
    unfold Plugins.use. rewrite Hi. rewrite splice_replace by done.
    split_and!; try done. apply length_insert.
  - intros Hnot. apply (first_with_comp_None c plugins 0) in Hnot.
    unfold Plugins.use. by rewrite Hnot.
Qed.

(** A registry that names no component twice stays so under [use]. *)
Lemma use_NoDup c cfg plugins :
  NoDup (Plugins.comp <$> plugins) →
  NoDup (Plugins.comp <$> Plugins.use emptyConfig c cfg plugins).
Proof.
  intros Hnd.
  destruct (decide (c ∈ Plugins.comp <$> plugins)) as [Hin|Hnot].
  - destruct (first_with_comp_is_Some _ _ Hin) as [i Hi].
    destruct (first_with_comp_Some _ _ _ _ Hi) as (k & old & -> & Hk & Hc & _).
    unfold Plugins.use. rewrite Hi. simpl.
    rewrite splice_replace by (by eapply lookup_lt_Some).
    rewrite list_fmap_insert. simpl.
    rewrite list_insert_id; [done|].
    by rewrite list_lookup_fmap, Hk; simpl; rewrite Hc.
  - assert (Plugins.first_with_comp c plugins 0 = None) as Hnone
      by (by apply first_with_comp_None).
    unfold Plugins.use. rewrite Hnone, fmap_app. simpl.
    apply NoDup_app. split_and!; [done | | apply NoDup_singleton].
    intros x Hx ->%list_elem_of_singleton. done.
Qed.

Lemma unuse_NoDup c plugins :
  NoDup (Plugins.comp <$> plugins) →
  NoDup (Plugins.comp <$> Plugins.unuse c plugins).
Proof.
  intros Hnd. unfold Plugins.unuse.
  destruct (Plugins.first_with_comp c plugins 0) as [i|]; [|done].
  rewrite splice_remove.
  rewrite list_fmap_delete.
  eapply sublist_NoDup; [done | apply sublist_delete].
Qed.

(** X22. The registry starts empty and changes through [use], [unuse] and
    [unuseAll] only, so it never names a component twice. *)
Lemma registry_NoDup (ops : list (Plugins.Call Config)) :
  NoDup (Plugins.comp <$> foldl (Plugins.call emptyConfig) [] ops).
Proof.
  assert (∀ plugins, NoDup (Plugins.comp <$> plugins) →
            NoDup (Plugins.comp <$> foldl (Plugins.call emptyConfig) plugins ops)) as Hgen.
  { induction ops as [|op ops IH]; intros plugins Hnd; simpl; [done|].
    apply IH. destruct op; simpl;
      [by apply use_NoDup | by apply unuse_NoDup | apply NoDup_nil_2]. }
  apply Hgen, NoDup_nil_2.
Qed.

End PluginRegistryFacts.

(** The claim at a registry of three plugins: re-registering the second
    one, then registering a fourth. *)
Lemma use_replaces_in_place_or_appends_witness :
  (∃ i old,
     [Plugins.mkPlugin 10%N 1%N; Plugins.mkPlugin 11%N 2%N; Plugins.mkPlugin 12%N 3%N] !! i
       = Some old ∧
     Plugins.comp old = 11%N ∧
     (∀ j q, j < i →
        [Plugins.mkPlugin 10%N 1%N; Plugins.mkPlugin 11%N 2%N; Plugins.mkPlugin 12%N 3%N] !! j
          = Some q → Plugins.comp q ≠ 11%N) ∧
     Plugins.use 0%N 11%N (Some 7%N)
       [Plugins.mkPlugin 10%N 1%N; Plugins.mkPlugin 11%N 2%N; Plugins.mkPlugin 12%N 3%N]
     = <[i := Plugins.mkPlugin 11%N 7%N]>
         [Plugins.mkPlugin 10%N 1%N; Plugins.mkPlugin 11%N 2%N; Plugins.mkPlugin 12%N 3%N] ∧
     length (Plugins.use 0%N 11%N (Some 7%N)
       [Plugins.mkPlugin 10%N 1%N; Plugins.mkPlugin 11%N 2%N; Plugins.mkPlugin 12%N 3%N]) = 3)
  ∧ Plugins.use 0%N 13%N None
      [Plugins.mkPlugin 10%N 1%N; Plugins.mkPlugin 11%N 2%N; Plugins.mkPlugin 12%N 3%N]
    = [Plugins.mkPlugin 10%N 1%N; Plugins.mkPlugin 11%N 2%N; Plugins.mkPlugin 12%N 3%N]
      ++ [Plugins.mkPlugin 13%N 0%N].
Proof.
  split.
  - apply (proj1 (use_replaces_in_place_or_appends 0%N 11%N (Some 7%N)
      [Plugins.mkPlugin 10%N 1%N; Plugins.mkPlugin 11%N 2%N; Plugins.mkPlugin 12%N 3%N])).
    simpl. apply list_elem_of_further, list_elem_of_here.
  - apply (proj2 (use_replaces_in_place_or_appends 0%N 13%N None
      [Plugins.mkPlugin 10%N 1%N; Plugins.mkPlugin 11%N 2%N; Plugins.mkPlugin 12%N 3%N])).
    simpl. intros Hin. repeat (apply elem_of_cons in Hin as [Hin|Hin]; [discriminate|]).
    by apply elem_of_nil in Hin.
Defined.

(** ** The keyboard listeners                                              *)

Lemma onKeyboard_one_NoDup (it : ref) (l : list ref) :
  NoDup l → NoDup (onKeyboard_one it l).
Proof.
  intros Hnd. unfold onKeyboard_one.
  destruct (JS.includes l it) eqn:E; simpl; [done|].
  apply NoDup_app. split_and!; [done | | apply NoDup_singleton].
  intros x Hx ->%list_elem_of_singleton.
  apply includes_elem_of in Hx. congruence.
Qed.

Lemma onKeyboard_one_elem_of (it : ref) (l : list ref) :
  it ∈ onKeyboard_one it l.
Proof.
  unfold onKeyboard_one. destruct (JS.includes l it) eqn:E; simpl.
  - by apply includes_elem_of.
  - apply elem_of_app. right. apply list_elem_of_singleton. done.
Qed.

Lemma onKeyboard_one_again (it : ref) (l : list ref) :
  it ∈ l → onKeyboard_one it l = l.
Proof.
  intros Hin%includes_elem_of. unfold onKeyboard_one. by rewrite Hin.
Qed.

Lemma offKeyboard_one_delete (it : ref) (l : list ref) :
  ((it ∉ l) ∧ (offKeyboard_one it l = l))
  ∨ (∃ i, (l !! i = Some it) ∧ (it ∉ take i l) ∧ (offKeyboard_one it l = delete i l)).
Proof.
  unfold offKeyboard_one.
  destruct (decide (it ∈ l)) as [Hin|Hnot].
  - right. destruct (indexOf_present l it Hin) as (i & Hi & Hl & Hfirst).
    exists i. rewrite Hi.
    destruct (Z.leb_spec 0 (Z.of_nat i)); [|lia].
    by rewrite Nat2Z.id, splice_remove.
  - left. by rewrite indexOf_absent.
Qed.

Lemma offKeyboard_one_NoDup (it : ref) (l : list ref) :
  NoDup l → NoDup (offKeyboard_one it l).
Proof.
  intros Hnd.
  destruct (offKeyboard_one_delete it l) as [[_ ->]|(i & _ & _ & ->)]; [done|].
  eapply sublist_NoDup; [done | apply sublist_delete].
Qed.

Lemma offKeyboard_one_removes (it : ref) (l : list ref) :
  NoDup l → it ∉ offKeyboard_one it l.
Proof.
  intros Hnd.
  destruct (offKeyboard_one_delete it l) as [[Hnot ->]|(i & Hi & _ & ->)]; [done|].
  rewrite delete_take_drop. rewrite <- (take_drop_middle l i it Hi) in Hnd.
  apply NoDup_app in Hnd as (_ & Hsep & [Hit _]%NoDup_cons).
  apply not_elem_of_app. split; [|done].
  intros Hin. apply (Hsep it Hin). apply list_elem_of_here.
Qed.

Lemma onKeyboard_NoDup (data : KeyboardArg) (l : list ref) :
  NoDup l → NoDup (onKeyboard data l).
Proof.
  destruct data as [it|its]; simpl; [apply onKeyboard_one_NoDup|].
  revert l. induction its as [|it its IH]; intros l Hnd; simpl; [done|].
  by apply IH, onKeyboard_one_NoDup.
Qed.

Lemma offKeyboard_NoDup (data : KeyboardArg) (l : list ref) :
  NoDup l → NoDup (offKeyboard data l).
Proof.
  destruct data as [it|its]; simpl; [apply offKeyboard_one_NoDup|].
  revert l. induction its as [|it its IH]; intros l Hnd; simpl; [done|].
  by apply IH, offKeyboard_one_NoDup.
Qed.

Lemma onKeyboard_repeated (it : ref) (n : nat) (l : list ref) :
  Nat.iter (S n) (onKeyboard (OneListener it)) l = onKeyboard (OneListener it) l.
Proof.
  induction n as [|n IH]; [done|].
  change (Nat.iter (S (S n)) (onKeyboard (OneListener it)) l)
    with (onKeyboard (OneListener it) (Nat.iter (S n) (onKeyboard (OneListener it)) l)).
  rewrite IH. simpl. apply onKeyboard_one_again, onKeyboard_one_elem_of.
Qed.

Lemma NoDup_count_occ_1 (x : ref) (l : list ref) :
  NoDup l → x ∈ l → count_occ N.eq_dec l x = 1.
Proof.
  intros Hnd%NoDup_ListNoDup Hin%list_elem_of_In.
  apply (proj1 (NoDup_count_occ' N.eq_dec l) Hnd x Hin).
Qed.

(** A listener list without repetitions stays without repetitions under
    [onKeyboard] and under [offKeyboard], for one listener or an array of
    them; registering one listener any number of times is the same as
    registering it once, leaves it in the list exactly once, and a single
    [offKeyboard] then removes it. *)
Lemma keyboardListeners_preserved (l : list ref) :
  NoDup l →
  (∀ data, NoDup (onKeyboard data l)) ∧
  (∀ data, NoDup (offKeyboard data l)) ∧
  (∀ it n,
     Nat.iter (S n) (onKeyboard (OneListener it)) l = onKeyboard (OneListener it) l ∧
     count_occ N.eq_dec (Nat.iter (S n) (onKeyboard (OneListener it)) l) it = 1 ∧
     it ∉ offKeyboard (OneListener it) (Nat.iter (S n) (onKeyboard (OneListener it)) l)).
Proof.
  intros Hnd. split_and!.
  - intros data. by apply onKeyboard_NoDup.
  - intros data. by apply offKeyboard_NoDup.
  - intros it n. rewrite onKeyboard_repeated. simpl. split_and!.
    + done.
    + apply NoDup_count_occ_1; [by apply onKeyboard_one_NoDup | apply onKeyboard_one_elem_of].
    + by apply offKeyboard_one_removes, onKeyboard_one_NoDup.
Qed.

(** ** Full screen                                                         *)

(** C9. [fullScreen(enable)] called when [isFullScreen()] already returns
    [enable] leaves the instance, its log and its pending callbacks as they
    were; called when it returns the other value, it sets the flag to
    [enable], emits one full-screen event carrying [enable], and changes
    nothing else. *)
Theorem fullScreen_acts_only_on_change (enable : bool) (w : World) :
  (isFullScreen w = enable → fullScreen enable w = w)
  ∧ (isFullScreen w ≠ enable →
     isFullScreen (fullScreen enable w) = enable ∧
     fullScreen enable w
       = with_trace
           (trace w ++ [SetState (UpdFullScreen enable); Emit (EVENT_FULL_SCREEN enable)])
           (with_state (mkState (s_text (state w)) (s_html (state w)) enable) w)).
Proof.
  unfold isFullScreen, fullScreen. split; intros H.
  - rewrite H. by destruct enable.
  - destruct (s_fullScreen (state w)), enable; try done; simpl;
      (split; [done|]); unfold log, setState, with_trace, with_state; simpl;
      by rewrite <- app_assoc.
Qed.

(** The claim at a new instance, which is not in full screen. *)
Lemma fullScreen_acts_only_on_change_witness :
  fullScreen false (constructor (mkProps None None None false false) (mkConfig None None))
    = constructor (mkProps None None None false false) (mkConfig None None)
  ∧ trace (fullScreen true
             (constructor (mkProps None None None false false) (mkConfig None None)))
    = [SetState (UpdFullScreen true); Emit (EVENT_FULL_SCREEN true)].
Proof.
  split.
  - apply (proj1 (fullScreen_acts_only_on_change false
      (constructor (mkProps None None None false false) (mkConfig None None)))).
    reflexivity.
  - destruct (proj2 (fullScreen_acts_only_on_change true
      (constructor (mkProps None None None false false) (mkConfig None None))))
      as [_ ->]; [discriminate | reflexivity].
Defined.

(** ** Rendering                                                           *)

(** C6. With no [renderHTML] prop, [renderHTML(text)] writes the diagnostic
    to the console, returns a promise that is already resolved, and changes
    nothing else: the state (the rendered output with it) and the pending
    callbacks are as before, and nothing was thrown. *)
Theorem renderHTML_without_render_function (markdownText : jsstring) (w : World) :
  p_renderHTML (props w) = None →
  renderHTML markdownText w
    = (RenderingResolved, log (ConsoleError "renderHTML props is required!") w)
  ∧ s_html (state (snd (renderHTML markdownText w))) = s_html (state w)
  ∧ getHtmlValue (snd (renderHTML markdownText w)) = getHtmlValue w
  ∧ trace (snd (renderHTML markdownText w))
    = trace w ++ [ConsoleError "renderHTML props is required!"].
Proof.
  intros Hnone. unfold renderHTML. rewrite Hnone. done.
Qed.

(** The claim at a new instance that was given no [renderHTML]. *)
Lemma renderHTML_without_render_function_witness :
  renderHTML (JS.lit "# Hello")
    (constructor (mkProps None None None false false) (mkConfig None None))
  = (RenderingResolved,
     log (ConsoleError "renderHTML props is required!")
       (constructor (mkProps None None None false false) (mkConfig None None))).
Proof.
  apply (renderHTML_without_render_function (JS.lit "# Hello")
    (constructor (mkProps None None None false false) (mkConfig None None))).
  reflexivity.
Defined.

(** ** Frame lemmas: which fields a method leaves alone                    *)

Lemma replace_sentinel_clean (s : jsstring) :
  JS.SENTINEL ∉ JS.replace_sentinel s.
Proof.
  unfold JS.replace_sentinel. intros (c & Hc & _)%list_elem_of_fmap.
  destruct (N.eqb_spec c JS.SENTINEL); [discriminate | congruence].
Qed.

Lemma replace_sentinel_id (s : jsstring) :
  JS.SENTINEL ∉ s → JS.replace_sentinel s = s.
Proof.
  unfold JS.replace_sentinel. induction s as [|c s IH]; simpl; [done|].
  intros [Hc Hs]%not_elem_of_cons.
  destruct (N.eqb_spec c JS.SENTINEL); [congruence|]. by rewrite IH.
Qed.

Lemma str_eq_true (a b : jsstring) : JS.str_eq a b = true ↔ a = b.
Proof. unfold JS.str_eq. apply bool_decide_eq_true. Qed.

Lemma str_eq_false (a b : jsstring) : JS.str_eq a b = false ↔ a ≠ b.
Proof. unfold JS.str_eq. apply bool_decide_eq_false. Qed.

Lemma pending_frames_app (ts ts' : list Task) :
  pending_frames (ts ++ ts') = pending_frames ts + pending_frames ts'.
Proof. induction ts as [|t ts IH]; simpl; [done|]. rewrite IH. lia. Qed.

Lemma pending_frames_delete (ts : list Task) (i : nat) (t : Task) :
  ts !! i = Some t →
  pending_frames ts
    = (if is_frame_callback t then 1 else 0) + pending_frames (delete i ts).
Proof.
  revert i. induction ts as [|t' ts IH]; intros [|i]; simpl; try done.
  - by intros [= ->].
  - intros Hi. rewrite (IH i Hi). lia.
Qed.

Lemma count_effects_app (test : Effect → bool) (tr tr' : list Effect) :
  count_effects test (tr ++ tr') = count_effects test tr + count_effects test tr'.
Proof. induction tr as [|e tr IH]; simpl; [done|]. rewrite IH. lia. Qed.

(** The steps of the text side, one lemma each, for [eauto] to chain. *)
Create HintDb world.

Lemma evolves_refl w : evolves w w.
Proof. by split. Qed.

Lemma evolves_trans w w1 w2 : evolves w w1 → evolves w1 w2 → evolves w w2.
Proof.
  intros [Hs1 Ht1] [Hs2 Ht2]. split; [congruence | auto].
Qed.

Lemma evolves_log e w w1 : evolves w w1 → evolves w (log e w1).
Proof. intros [Hs Ht]. by split. Qed.

Lemma evolves_setState_text t w w1 :
  JS.SENTINEL ∉ t → evolves w w1 → evolves w (setState (UpdText t) w1).
Proof. intros Hclean [Hs Ht]. by split. Qed.

Lemma evolves_setState_html h w w1 :
  evolves w w1 → evolves w (setState (UpdHtml h) w1).
Proof. intros [Hs Ht]. by split. Qed.

Lemma evolves_setState_fullScreen b w w1 :
  evolves w w1 → evolves w (setState (UpdFullScreen b) w1).
Proof. intros [Hs Ht]. by split. Qed.

Lemma evolves_schedule t w w1 :
  is_frame_callback t = false → evolves w w1 → evolves w (schedule t w1).
Proof.
  intros Hframe [Hs Ht]. split; [|done].
  rewrite <- Hs. unfold scroll_side, schedule; simpl.
  rewrite pending_frames_app; simpl. rewrite Hframe. by rewrite !Nat.add_0_r.
Qed.

Lemma evolves_with_hasContentChanged b w w1 :
  evolves w w1 → evolves w (with_hasContentChanged b w1).
Proof. intros [Hs Ht]. by split. Qed.

Lemma evolves_with_props p w w1 : evolves w w1 → evolves w (with_props p w1).
Proof. intros [Hs Ht]. by split. Qed.

Lemma evolves_chain rendering reaction w w1 :
  evolves w w1 → evolves w (chain rendering reaction w1).
Proof.
  intros H. unfold chain.
  destruct rendering, reaction; auto using evolves_schedule.
Qed.

Lemma evolves_renderHTML t w w1 :
  evolves w w1 → evolves w (snd (renderHTML t w1)).
Proof.
  intros H. unfold renderHTML, setHtml.
  destruct (p_renderHTML (props w1)) as [f|]; simpl; [|by apply evolves_log].
  destruct (f t); simpl; auto using evolves_setState_html.
Qed.

#[local] Hint Resolve evolves_refl evolves_log evolves_setState_text
  evolves_setState_html evolves_setState_fullScreen evolves_schedule
  evolves_with_hasContentChanged evolves_with_props evolves_chain
  evolves_renderHTML replace_sentinel_clean : world.

Lemma evolves_setText value event newSelection w w1 :
  evolves w w1 → evolves w (setText value event newSelection w1).
Proof.
  intros H. unfold setText. cbv zeta.
  destruct (JS.str_eq _ _); [done|].
  destruct (renderHTML _ _) as [r w'] eqn:E.
  assert (evolves w w') as H'.
  { match type of E with renderHTML ?t ?x = _ =>
      replace w' with (snd (renderHTML t x)) by (by rewrite E) end.
    apply evolves_renderHTML.
    repeat case_match; eauto 10 with world. }
  destruct (default both _); eauto with world.
Qed.

Lemma evolves_afterRenderNotify event w w1 :
  evolves w w1 → evolves w (afterRenderNotify event w1).
Proof. intros H. unfold afterRenderNotify. case_match; eauto with world. Qed.

Lemma evolves_fullScreen enable w w1 :
  evolves w w1 → evolves w (fullScreen enable w1).
Proof. intros H. unfold fullScreen. case_match; eauto with world. Qed.

Lemma evolves_componentDidMount w w1 :
  evolves w w1 → evolves w (componentDidMount w1).
Proof.
  intros H. unfold componentDidMount.
  destruct (renderHTML _ _) as [r w'] eqn:E.
  apply evolves_chain. replace w' with (snd (renderHTML (s_text (state w1)) w1))
    by (by rewrite E).
  eauto with world.
Qed.

Lemma evolves_componentDidUpdate w w1 :
  evolves w w1 → evolves w (componentDidUpdate w1).
Proof.
  intros H. unfold componentDidUpdate.
  destruct (p_value (props w1)) as [v|]; [|done].
  repeat (case_match; try done).
  match goal with E : renderHTML ?t ?x = (_, ?y) |- _ =>
    replace y with (snd (renderHTML t x)) by (by rewrite E) end.
  eauto with world.
Qed.

Lemma evolves_placeholderResolved placeholder str w w1 :
  evolves w w1 → evolves w (placeholderResolved placeholder str w1).
Proof. intros H. by apply evolves_setText. Qed.

#[local] Hint Resolve evolves_setText evolves_afterRenderNotify
  evolves_fullScreen evolves_componentDidMount evolves_componentDidUpdate
  evolves_placeholderResolved : world.

(** ** The invariant of an instance                                        *)

Lemma Invariant_evolves w w' : Invariant w → evolves w w' → Invariant w'.
Proof.
  intros [Htext Hnode Hscale Hframes Hlisteners] [Hs Ht].
  unfold scroll_side in Hs.
  injection Hs as Heditor Hinput Hwrapper Hsc Hflag Hactive Hls Hpending.
  split; [auto | congruence | congruence | | congruence].
  unfold frames_accounted in *. by rewrite Hpending, Hflag.
Qed.

Lemma Invariant_constructor props config : Invariant (constructor props config).
Proof.
  split; simpl; [apply replace_sentinel_clean | done | done | | apply NoDup_nil_2].
  unfold frames_accounted; simpl; lia.
Qed.

Lemma Invariant_setSelection to w : Invariant w → setSelection to w = w.
Proof. intros [_ Hnode _ _ _]. unfold setSelection. by rewrite Hnode. Qed.

Lemma Invariant_clearSelection w : Invariant w → clearSelection w = w.
Proof. intros [_ Hnode _ _ _]. unfold clearSelection. by rewrite Hnode. Qed.

Lemma Invariant_handleSyncScroll type e w :
  Invariant w → Invariant (handleSyncScroll type e w).
Proof.
  intros [Htext Hnode Hscale Hframes Hlisteners].
  unfold handleSyncScroll, frames_accounted in *. cbv zeta.
  destruct (negb (same_pane _ _)); [by split|].
  destruct (negb (existsb _ _)); [by destruct (p_onScroll (props w)); split|].
  destruct (p_onScroll (props w)) eqn:Hp, (hasContentChanged w) eqn:Hc,
    (isSyncingScroll w) eqn:Hflag;
    simpl; rewrite ?Hc, ?Hnode; simpl; rewrite ?Hflag; simpl;
    split; simpl; try done;
    unfold frames_accounted; simpl;
    rewrite ?Hflag, ?pending_frames_app; simpl; lia.
Qed.

Lemma Invariant_syncScrollCallback type w ts :
  Invariant w → pending_frames ts = 0 →
  Invariant (syncScrollCallback type (with_tasks ts w)).
Proof.
  intros [Htext Hnode Hscale Hframes Hlisteners] Hts.
  unfold syncScrollCallback. simpl.
  destruct (nodeEditor w) as [editor|]; simpl.
  - destruct (DOM.cursorDiv editor), (nodeMdPreviewWrapper w), type;
      split; simpl; try done; unfold frames_accounted; simpl; lia.
  - split; simpl; try done. unfold frames_accounted; simpl. lia.
Qed.

Lemma evolves_with_tasks ts w :
  pending_frames ts = pending_frames (tasks w) → evolves w (with_tasks ts w).
Proof. intros Hts. split; [|done]. unfold scroll_side; simpl. by rewrite Hts. Qed.

Lemma Invariant_run_task i w : Invariant w → Invariant (run_task i w).
Proof.
  intros Hinv. unfold run_task.
  destruct (tasks w !! i) as [t|] eqn:Hi; [|done].
  pose proof (pending_frames_delete _ _ _ Hi) as Hcount.
  destruct t as [to|type|rendering reaction|placeholder [str|]]; simpl in *.
  - rewrite Invariant_setSelection;
      eapply Invariant_evolves, evolves_with_tasks; eauto.
  - apply Invariant_syncScrollCallback; [done|].
    destruct Hinv as [_ _ _ Hframes _]. unfold frames_accounted in Hframes.
    destruct (isSyncingScroll w); lia.
  - eapply Invariant_evolves; [done|].
    destruct rendering as [|[r|]], reaction;
      eauto using evolves_with_tasks with world.
  - eapply Invariant_evolves; [done|].
    eauto using evolves_with_tasks with world.
  - eapply Invariant_evolves; [done|].
    eauto using evolves_with_tasks with world.
Qed.

Section InvariantOfRuns.
Variable initialSelection : Selection.

Lemma evolves_insertText value replaceSelected newSelection w w1 :
  evolves w w1 →
  evolves w (insertText initialSelection value replaceSelected newSelection w1).
Proof. intros H. unfold insertText. eauto with world. Qed.

Lemma evolves_insertPlaceholder placeholder wait w w1 :
  evolves w w1 → evolves w (insertPlaceholder initialSelection placeholder wait w1).
Proof.
  intros H. unfold insertPlaceholder. eauto using evolves_insertText with world.
Qed.

Lemma Invariant_perform a w :
  Invariant w → Invariant (perform initialSelection a w).
Proof.
  intros Hinv. destruct a; simpl.
  - eapply Invariant_evolves; [|apply evolves_componentDidMount, evolves_refl].
    destruct Hinv. by split.
  - eapply Invariant_evolves; [done|]. eauto with world.
  - destruct Hinv.
    destruct (nodeEditor w) eqn:He, (nodeMdPreviewWrapper w) eqn:Hw;
      simpl; rewrite ?Hw; by split.
  - eapply Invariant_evolves; [done|]. eauto with world.
  - eapply Invariant_evolves; [done|]. eauto using evolves_insertText with world.
  - eapply Invariant_evolves; [done|]. eauto using evolves_insertPlaceholder with world.
  - by rewrite Invariant_setSelection.
  - by rewrite Invariant_clearSelection.
  - eapply Invariant_evolves; [done|]. eauto with world.
  - destruct Hinv. split; simpl; try done. by apply onKeyboard_NoDup.
  - destruct Hinv. split; simpl; try done. by apply offKeyboard_NoDup.
  - eapply Invariant_evolves; [done|]. unfold handleChange2. eauto with world.
  - by apply Invariant_handleSyncScroll.
  - destruct Hinv. by split.
  - by apply Invariant_run_task.
Qed.

Lemma Invariant_run actions w :
  Invariant w → Invariant (run initialSelection actions w).
Proof.
  revert w. induction actions as [|a actions IH]; intros w Hinv; simpl; [done|].
  by apply IH, Invariant_perform.
Qed.

Lemma Invariant_reachable props config actions :
  Invariant (run initialSelection actions (constructor props config)).
Proof. apply Invariant_run, Invariant_constructor. Qed.

End InvariantOfRuns.

(** C10. On an instance however it was constructed and used, the list of
    keyboard listeners holds no listener twice, and it stays so under
    [onKeyboard] and under [offKeyboard], for one listener or an array of
    them; registering one listener any number of times is the same as
    registering it once, leaves it in the list exactly once, and a single
    [offKeyboard] then removes it. *)
Theorem keyboardListeners_never_repeat (initialSelection : Selection)
    (props : EditorProps) (config : EditorConfig) (actions : list Action) :
  let l := keyboardListeners (run initialSelection actions (constructor props config)) in
  NoDup l ∧
  (∀ data, NoDup (onKeyboard data l)) ∧
  (∀ data, NoDup (offKeyboard data l)) ∧
  (∀ it n,
     Nat.iter (S n) (onKeyboard (OneListener it)) l = onKeyboard (OneListener it) l ∧
     count_occ N.eq_dec (Nat.iter (S n) (onKeyboard (OneListener it)) l) it = 1 ∧
     it ∉ offKeyboard (OneListener it) (Nat.iter (S n) (onKeyboard (OneListener it)) l)).
Proof.
  intros l.
  pose proof (inv_listeners _ (Invariant_reachable initialSelection props config actions))
    as Hnd.
  split; [done|]. by apply keyboardListeners_preserved.
Qed.

(** On the sample instance, after registering listener 5 three times and
    listener 6 once: each is in the list once, and one [offKeyboard]
    removes listener 5. *)
Lemma keyboardListeners_never_repeat_witness :
  NoDup (keyboardListeners
           (run sample_initialSelection
              [CallOnKeyboard (OneListener 5%N); CallOnKeyboard (ListenerArray [5%N; 6%N]);
               CallOnKeyboard (OneListener 5%N)]
              (constructor sample_props sample_config)))
  ∧ keyboardListeners
      (run sample_initialSelection
         [CallOnKeyboard (OneListener 5%N); CallOnKeyboard (ListenerArray [5%N; 6%N]);
          CallOnKeyboard (OneListener 5%N); CallOffKeyboard (OneListener 5%N)]
         (constructor sample_props sample_config))
    = [6%N].
Proof.
  split; [|reflexivity].
  apply (keyboardListeners_never_repeat sample_initialSelection sample_props
    sample_config
    [CallOnKeyboard (OneListener 5%N); CallOnKeyboard (ListenerArray [5%N; 6%N]);
     CallOnKeyboard (OneListener 5%N)]).
Defined.

(** ** What [setText] writes to the log                                    *)

Lemma trace_chain rendering reaction w :
  trace (chain rendering reaction w) = trace w.
Proof. unfold chain. by destruct rendering, reaction. Qed.

Lemma state_chain rendering reaction w :
  state (chain rendering reaction w) = state w.
Proof. unfold chain. by destruct rendering, reaction. Qed.

Lemma renderHTML_text t w :
  s_text (state (snd (renderHTML t w))) = s_text (state w).
Proof.
  unfold renderHTML, setHtml.
  destruct (p_renderHTML (props w)) as [f|]; [|done]. by destruct (f t).
Qed.

Lemma renderHTML_count test t w :
  ignores_rendering test →
  count_effects test (trace (snd (renderHTML t w))) = count_effects test (trace w).
Proof.
  intros (Herr & Hhtml & _). unfold renderHTML, setHtml.
  destruct (p_renderHTML (props w)) as [f|]; simpl.
  - destruct (f t); simpl; rewrite ?count_effects_app; simpl;
      rewrite ?Hhtml; lia.
  - rewrite count_effects_app; simpl. rewrite Herr. lia.
Qed.

Lemma is_text_update_ignores_rendering : ignores_rendering is_text_update.
Proof. by split_and!. Qed.

Lemma is_change_event_ignores_rendering : ignores_rendering is_change_event.
Proof. by split_and!. Qed.

Lemma setText_same value event newSelection w :
  s_text (state w) = default [] value → setText value event newSelection w = w.
Proof.
  intros Heq. unfold setText. cbv zeta.
  by rewrite (proj2 (str_eq_true _ _) Heq).
Qed.

Lemma setText_changed_text value event newSelection w :
  s_text (state w) ≠ default [] value →
  s_text (state (setText value event newSelection w))
    = JS.replace_sentinel (default [] value).
Proof.
  intros Hne. unfold setText. cbv zeta.
  rewrite (proj2 (str_eq_false _ _) Hne).
  destruct (renderHTML _ _) as [r w'] eqn:E.
  match type of E with renderHTML ?t ?x = _ =>
    replace w' with (snd (renderHTML t x)) by (by rewrite E) end.
  destruct (default both _); rewrite state_chain, renderHTML_text;
    repeat case_match; done.
Qed.

Lemma setText_changed_count test value event newSelection w :
  ignores_rendering test →
  s_text (state w) ≠ default [] value →
  count_effects test (trace (setText value event newSelection w))
    = count_effects test (trace w)
      + count_effects test
          [SetState (UpdText (JS.replace_sentinel (default [] value)));
           Emit (EVENT_CHANGE (default [] value) event (bool_decide (event = None)))].
Proof.
  intros Hquiet Hne. unfold setText. cbv zeta.
  rewrite (proj2 (str_eq_false _ _) Hne).
  destruct (renderHTML _ _) as [r w'] eqn:E.
  match type of E with renderHTML ?t ?x = _ =>
    replace w' with (snd (renderHTML t x)) by (by rewrite E) end.
  destruct Hquiet as (Herr & Hhtml & Hchange).
  destruct (default both _); rewrite trace_chain, renderHTML_count by done;
    repeat case_match; simpl; rewrite ?count_effects_app; simpl;
    rewrite ?count_effects_app; simpl; rewrite ?Hchange; lia.
Qed.


(** C1. The guard of [setText] compares the current text with the value as
    given, not with its normalized form. So for a value [x] that holds the
    sentinel: on an instance whose text is the normalized form of [x],
    [setText(x)] is not a no-op, it calls [setState] on the text, emits a
    change event, and leaves the text as it was, so that the next call does
    the same; and on an instance whose text holds no sentinel, two calls
    [setText(x)] in a row make two updates of the text and emit two change
    events. *)
Theorem setText_repeats_with_sentinel (x : jsstring) (event : option ref) :
  JS.SENTINEL ∈ x →
  (∀ w,
     getMdValue w = JS.replace_sentinel x →
     getMdValue (setText (Some x) event None w) = JS.replace_sentinel x
     ∧ count_effects is_text_update (trace (setText (Some x) event None w))
       = count_effects is_text_update (trace w) + 1
     ∧ count_effects is_change_event (trace (setText (Some x) event None w))
       = count_effects is_change_event (trace w) + 1)
  ∧ (∀ w,
       JS.SENTINEL ∉ getMdValue w →
       count_effects is_text_update
         (trace (setText (Some x) event None (setText (Some x) event None w)))
       = count_effects is_text_update (trace w) + 2
       ∧ count_effects is_change_event
           (trace (setText (Some x) event None (setText (Some x) event None w)))
         = count_effects is_change_event (trace w) + 2).
Proof.
  intros Hx. unfold getMdValue.
  assert (∀ w, JS.SENTINEL ∉ s_text (state w) →
            s_text (state w) ≠ default [] (Some x)) as Hdiffers
    by (intros w Hclean Heq; simpl in Heq; apply Hclean; by rewrite Heq).
  assert (∀ w, JS.SENTINEL ∉ s_text (state w) →
            s_text (state (setText (Some x) event None w)) = JS.replace_sentinel x
            ∧ count_effects is_text_update (trace (setText (Some x) event None w))
              = count_effects is_text_update (trace w) + 1
            ∧ count_effects is_change_event (trace (setText (Some x) event None w))
              = count_effects is_change_event (trace w) + 1) as Honce.
  { intros w Hne%Hdiffers. split_and!.
    - by rewrite setText_changed_text.
    - by rewrite (setText_changed_count _ _ _ _ _ is_text_update_ignores_rendering Hne).
    - by rewrite (setText_changed_count _ _ _ _ _ is_change_event_ignores_rendering Hne). }
  split.
  - intros w Htext. apply Honce. rewrite Htext. apply replace_sentinel_clean.
  - intros w Hclean.
    destruct (Honce w Hclean) as (Htext & Hupdates & Hchanges).
    destruct (Honce (setText (Some x) event None w)) as (_ & Hupdates' & Hchanges').
    { rewrite Htext. apply replace_sentinel_clean. }
    rewrite Hupdates', Hchanges', Hupdates, Hchanges. lia.
Qed.

(** On the sample instance, whose text has been "a\nb" since its
    construction: a call [setText("a↵b")] leaves one update of the text and
    one change event in the log, and a second call one more of each. *)
Lemma setText_repeats_with_sentinel_witness :
  getMdValue sample_mounted = JS.replace_sentinel sample_text
  ∧ count_effects is_text_update
      (trace (setText (Some sample_text) None None sample_mounted)) = 1
  ∧ count_effects is_change_event
      (trace (setText (Some sample_text) None None sample_mounted)) = 1
  ∧ count_effects is_text_update
      (trace (setText (Some sample_text) None None
                (setText (Some sample_text) None None sample_mounted))) = 2
  ∧ count_effects is_change_event
      (trace (setText (Some sample_text) None None
                (setText (Some sample_text) None None sample_mounted))) = 2.
Proof.
  destruct (setText_repeats_with_sentinel sample_text None) as [Honce Htwice].
  - apply list_elem_of_further, list_elem_of_here.
  - destruct (Honce sample_mounted eq_refl) as (_ & Hupdates & Hchanges).
    destruct (Htwice sample_mounted) as (Hupdates' & Hchanges').
    { apply (inv_text _ (Invariant_reachable sample_initialSelection sample_props
        sample_config
        [Mount (DOM.mkCodeMirrorEditor true 50%float) []
           (DOM.mkPreviewWrapper 100%float 0%float)])). }
    split_and!; [reflexivity | by rewrite Hupdates | by rewrite Hchanges
                | by rewrite Hupdates' | by rewrite Hchanges'].
Defined.

(** ** The text never holds the sentinel                                   *)

Lemma setText_text value event newSelection w :
  getMdValue (setText value event newSelection w) = getMdValue w
  ∨ getMdValue (setText value event newSelection w)
    = JS.replace_sentinel (default [] value).
Proof.
  unfold getMdValue.
  destruct (decide (s_text (state w) = default [] value)) as [Heq|Hne].
  - left. by rewrite setText_same.
  - right. by apply setText_changed_text.
Qed.

Lemma componentDidUpdate_text (w : World) :
  getMdValue (componentDidUpdate w) = getMdValue w
  ∨ ∃ v, p_value (props w) = Some v
         ∧ getMdValue (componentDidUpdate w) = JS.replace_sentinel v.
Proof.
  unfold componentDidUpdate, getMdValue.
  destruct (p_value (props w)) as [v|] eqn:Hv; [|by left].
  repeat (case_match; try by left). right. exists v. split; [done|].
  match goal with E : renderHTML ?t ?x = (_, ?y) |- _ =>
    replace y with (snd (renderHTML t x)) by (by rewrite E) end.
  by rewrite state_chain, renderHTML_text.
Qed.

(** C4. Whatever the props and the configuration an instance was
    constructed with, and whatever happened to it since (mounting, new
    props, [setText] and the methods that call it, change events,
    callbacks run by the event loop, ...), the text [getMdValue()] returns
    holds no sentinel. The constructor, [setText] and [componentDidUpdate]
    store the text they are given with each sentinel replaced by a newline
    and every other code unit kept, when they store one. *)
Theorem getMdValue_never_holds_sentinel (initialSelection : Selection)
    (given : EditorProps) (merged : EditorConfig) (actions : list Action) :
  (JS.SENTINEL ∉ getMdValue (run initialSelection actions (constructor given merged)))
  ∧ getMdValue (constructor given merged)
    = JS.replace_sentinel
        (JS.or_empty (JS.or_else (p_value given) (p_defaultValue given)))
  ∧ (∀ value event newSelection w,
       getMdValue (setText value event newSelection w) = getMdValue w
       ∨ getMdValue (setText value event newSelection w)
         = JS.replace_sentinel (default [] value))
  ∧ (∀ w,
       getMdValue (componentDidUpdate w) = getMdValue w
       ∨ ∃ v, p_value (props w) = Some v
              ∧ getMdValue (componentDidUpdate w) = JS.replace_sentinel v)
  ∧ (∀ s i,
       JS.replace_sentinel s !! i
       = (λ c, if N.eqb c JS.SENTINEL then JS.LF else c) <$> s !! i).
Proof.
  split_and!.
  - apply (inv_text _ (Invariant_reachable initialSelection given merged actions)).
  - reflexivity.
  - apply setText_text.
  - apply componentDidUpdate_text.
  - intros s i. unfold JS.replace_sentinel. apply list_lookup_fmap.
Qed.

(** ** Selections                                                          *)

(** C2. [render] never attaches the ref [nodeMdText], so on an instance
    however it was constructed and used, [setSelection] does nothing and
    the [getSelection()] that follows returns [initialSelection], whatever
    offsets were given. *)
Theorem getSelection_ignores_setSelection (initialSelection : Selection)
    (props : EditorProps) (config : EditorConfig) (actions : list Action)
    (to : SelRange) :
  setSelection to (run initialSelection actions (constructor props config))
    = run initialSelection actions (constructor props config)
  ∧ getSelection initialSelection
      (setSelection to (run initialSelection actions (constructor props config)))
    = initialSelection.
Proof.
  pose proof (Invariant_reachable initialSelection props config actions) as Hinv.
  rewrite (Invariant_setSelection _ _ Hinv). split; [done|].
  unfold getSelection. by rewrite (inv_nodeMdText _ Hinv).
Qed.

(** With the text area attached and showing the current text, the two
    methods do what their names say. *)
Lemma selection_round_trip_attached (initialSelection : Selection) (w : World)
    (node : DOM.TextArea) (s e : Z) :
  nodeMdText w = Some node →
  DOM.value node = s_text (state w) →
  (0 ≤ s ≤ e)%Z →
  (e ≤ Z.of_nat (length (s_text (state w))))%Z →
  (Z.of_nat (length (s_text (state w))) < 2 ^ 32)%Z →
  getSelection initialSelection (setSelection (mkSelRange s e) w)
    = mkSelection s e
        (take (Z.to_nat (e - s)) (drop (Z.to_nat s) (s_text (state w)))).
Proof.
  intros Hnode Hvalue Hse Hlen Hfits.
  unfold getSelection, setSelection. rewrite Hnode. simpl.
  unfold DOM.to_unsigned_long. rewrite Hvalue.
  rewrite !Z.mod_small by lia.
  rewrite !Z.min_l by lia.
  unfold JS.slice.
  destruct (Z.leb_spec e s) as [Hle|Hlt].
  - assert (s = e) as -> by lia.
    destruct (Z.ltb_spec e 0); [lia|].
    rewrite !Z.min_l by lia. done.
  - destruct (Z.ltb_spec s 0); [lia|]. destruct (Z.ltb_spec e 0); [lia|].
    rewrite !Z.min_l by lia. done.
Qed.

(** ** Scroll synchronisation                                              *)

(** C3. [handleSyncScroll] reads the height of the edit pane from the ref
    [nodeMdText], which [render] never attaches. So on an instance however
    it was constructed and used, the scale ratio is 1, a scroll event from
    the edit pane leaves it at 1, and the frame callback of the edit pane,
    when the editor and the preview are there, writes the editor's offset
    divided by 1 to the preview. *)
Theorem scroll_scale_is_never_recomputed (initialSelection : Selection)
    (props : EditorProps) (config : EditorConfig) (actions : list Action)
    (e : ref) (editor : DOM.CodeMirrorEditor) (wrapper : DOM.PreviewWrapper) :
  scrollScale (run initialSelection actions (constructor props config)) = 1%float
  ∧ scrollScale
      (handleSyncScroll md e (run initialSelection actions (constructor props config)))
    = 1%float
  ∧ (nodeEditor (run initialSelection actions (constructor props config)) = Some editor →
     DOM.cursorDiv editor = true →
     nodeMdPreviewWrapper (run initialSelection actions (constructor props config))
       = Some wrapper →
     trace (syncScrollCallback md
              (run initialSelection actions (constructor props config)))
       = trace (run initialSelection actions (constructor props config))
         ++ [ScrollWrite html (DOM.doc_scrollTop editor / 1)%float]
     ∧ nodeMdPreviewWrapper
         (syncScrollCallback md
            (run initialSelection actions (constructor props config)))
       = Some (DOM.mkPreviewWrapper (DOM.pw_scrollHeight wrapper)
                 (DOM.doc_scrollTop editor / 1)%float)).
Proof.
  pose proof (Invariant_reachable initialSelection props config actions) as Hinv.
  split_and!.
  - apply (inv_scrollScale _ Hinv).
  - apply (inv_scrollScale _ (Invariant_handleSyncScroll md e _ Hinv)).
  - intros Hed Hcursor Hwrap. unfold syncScrollCallback.
    rewrite Hed, Hcursor, Hwrap. simpl. by rewrite (inv_scrollScale _ Hinv).
Qed.

(** On the sample instance, mounted with the editor at offset 50 and a
    preview of scrollable height 100: after a scroll event from the edit
    pane the ratio is 1 whatever the height of the edit pane, and the frame
    callback writes 50 to the preview. *)
Lemma scroll_scale_is_never_recomputed_witness :
  scrollScale (handleSyncScroll md 7%N sample_mounted) = 1%float
  ∧ trace (syncScrollCallback md (handleSyncScroll md 7%N sample_mounted))
    = trace (handleSyncScroll md 7%N sample_mounted) ++ [ScrollWrite html 50%float]
  ∧ nodeMdPreviewWrapper (syncScrollCallback md (handleSyncScroll md 7%N sample_mounted))
    = Some (DOM.mkPreviewWrapper 100%float 50%float).
Proof.
  split.
  - apply (scroll_scale_is_never_recomputed sample_initialSelection sample_props
      sample_config
      [Mount (DOM.mkCodeMirrorEditor true 50%float) []
         (DOM.mkPreviewWrapper 100%float 0%float)]
      7%N (DOM.mkCodeMirrorEditor true 50%float)
      (DOM.mkPreviewWrapper 100%float 0%float)).
  - apply (scroll_scale_is_never_recomputed sample_initialSelection sample_props
      sample_config
      [Mount (DOM.mkCodeMirrorEditor true 50%float) []
         (DOM.mkPreviewWrapper 100%float 0%float);
       Scroll md 7%N]
      7%N (DOM.mkCodeMirrorEditor true 50%float)
      (DOM.mkPreviewWrapper 100%float 0%float)); reflexivity.
Defined.

(** With the text area attached, a scroll event from the edit pane, when
    that pane is the active source, sync is asked for in that direction,
    the content has changed and no callback is pending, recomputes the
    ratio from the two heights and schedules one callback; the callback
    writes the editor's offset divided by that ratio to the preview, and
    the scroll event this write produces on the preview is dropped. *)
Lemma scroll_sync_attached (w : World) (input : DOM.TextArea)
    (editor : DOM.CodeMirrorEditor) (wrapper : DOM.PreviewWrapper) (e e' : ref) :
  shouldSyncScroll w = md →
  existsb (String.eqb "rightFollowLeft") (default [] (c_syncScrollMode (config w))) = true →
  isSyncingScroll w = false →
  hasContentChanged w = true →
  nodeMdText w = Some input →
  nodeEditor w = Some editor →
  DOM.cursorDiv editor = true →
  nodeMdPreviewWrapper w = Some wrapper →
  scrollScale (handleSyncScroll md e w)
    = (DOM.scrollHeight input / DOM.pw_scrollHeight wrapper)%float
  ∧ tasks (handleSyncScroll md e w) = tasks w ++ [TSyncScroll md]
  ∧ trace (syncScrollCallback md (handleSyncScroll md e w))
    = trace (handleSyncScroll md e w)
      ++ [ScrollWrite html
            (DOM.doc_scrollTop editor
             / (DOM.scrollHeight input / DOM.pw_scrollHeight wrapper))%float]
  ∧ handleSyncScroll html e' (syncScrollCallback md (handleSyncScroll md e w))
    = syncScrollCallback md (handleSyncScroll md e w).
Proof.
  intros Hactive Hmode Hflag Hchanged Hinput Heditor Hcursor Hwrapper.
  assert (handleSyncScroll md e w
          = schedule (TSyncScroll md)
              (with_isSyncingScroll true
                 (with_hasContentChanged false
                    (with_scrollScale
                       (DOM.scrollHeight input / DOM.pw_scrollHeight wrapper)%float
                       (log (Emit (EVENT_SCROLL e md))
                          (if p_onScroll (props w) then log (OnScroll e md) w else w))))))
    as ->.
  { unfold handleSyncScroll. rewrite Hactive. cbv zeta.
    destruct (p_onScroll (props w)); cbn -[existsb String.eqb];
      rewrite Hmode, Hchanged, Hinput, Hwrapper; cbn -[existsb String.eqb]; by rewrite Hflag. }
  unfold syncScrollCallback.
  destruct (p_onScroll (props w)); simpl;
    rewrite Heditor, Hcursor, Hwrapper; simpl;
    (split_and!; [done | done | done |]);
    unfold handleSyncScroll; simpl; by rewrite Hactive.
Qed.

(** A scroll event from the pane that is not the active source is dropped:
    the write the frame callback makes to the other pane starts no write
    back. *)
Lemma handleSyncScroll_other_pane (type : PaneType) (e : ref) (w : World) :
  same_pane type (shouldSyncScroll w) = false → handleSyncScroll type e w = w.
Proof. intros Hother. unfold handleSyncScroll. by rewrite Hother. Qed.

(** One scroll event: either no callback is scheduled and the flag stays,
    or the flag was clear, is now set, and one callback was scheduled. *)
Lemma handleSyncScroll_schedules (type : PaneType) (e : ref) (w : World) :
  (tasks (handleSyncScroll type e w) = tasks w
   ∧ isSyncingScroll (handleSyncScroll type e w) = isSyncingScroll w)
  ∨ (isSyncingScroll w = false
     ∧ tasks (handleSyncScroll type e w) = tasks w ++ [TSyncScroll type]
     ∧ isSyncingScroll (handleSyncScroll type e w) = true).
Proof.
  unfold handleSyncScroll. cbv zeta.
  destruct (negb (same_pane _ _)); [by left|].
  destruct (negb (existsb _ _)); [by destruct (p_onScroll (props w)); left|].
  destruct (p_onScroll (props w)), (hasContentChanged w) eqn:Hc,
    (nodeMdText w) eqn:Hn, (nodeMdPreviewWrapper w) eqn:Hw,
    (isSyncingScroll w) eqn:Hflag;
    simpl; rewrite ?Hc, ?Hn; simpl; rewrite ?Hw; simpl; rewrite ?Hflag; simpl;
    first [by left | by right].
Qed.

Lemma handleSyncScroll_writes_nothing (type : PaneType) (e : ref) (w : World) :
  count_effects is_scroll_write (trace (handleSyncScroll type e w))
    = count_effects is_scroll_write (trace w).
Proof.
  unfold handleSyncScroll. cbv zeta.
  destruct (negb (same_pane _ _)); [done|].
  destruct (negb (existsb _ _)), (p_onScroll (props w)),
    (hasContentChanged w) eqn:Hc, (nodeMdText w) eqn:Hn,
    (nodeMdPreviewWrapper w) eqn:Hw, (isSyncingScroll w) eqn:Hflag;
    simpl; rewrite ?Hc, ?Hn; simpl; rewrite ?Hw; simpl; rewrite ?Hflag; simpl;
    rewrite ?count_effects_app; simpl; lia.
Qed.

Lemma scroll_burst_schedules (events : list (PaneType * ref)) (w : World) :
  (tasks (scroll_burst events w) = tasks w
   ∧ isSyncingScroll (scroll_burst events w) = isSyncingScroll w)
  ∨ (isSyncingScroll w = false
     ∧ (∃ type, tasks (scroll_burst events w) = tasks w ++ [TSyncScroll type])
     ∧ isSyncingScroll (scroll_burst events w) = true).
Proof.
  revert w. induction events as [|[type e] events IH]; intros w; [by left|].
  change (scroll_burst ((type, e) :: events) w)
    with (scroll_burst events (handleSyncScroll type e w)).
  destruct (handleSyncScroll_schedules type e w) as [[Ht Hf]|(Hclear & Ht & Hset)];
    destruct (IH (handleSyncScroll type e w)) as [[Ht' Hf']|(Hclear' & [ty Ht'] & Hset')].
  - left. split; congruence.
  - right. split_and!; [congruence | exists ty; congruence | done].
  - right. split_and!; [done | exists type; congruence | congruence].
  - congruence.
Qed.

Lemma scroll_burst_writes_nothing (events : list (PaneType * ref)) (w : World) :
  count_effects is_scroll_write (trace (scroll_burst events w))
    = count_effects is_scroll_write (trace w).
Proof.
  revert w. induction events as [|[type e] events IH]; intros w; [done|].
  change (scroll_burst ((type, e) :: events) w)
    with (scroll_burst events (handleSyncScroll type e w)).
  by rewrite IH, handleSyncScroll_writes_nothing.
Qed.

Lemma syncScrollCallback_writes_once (type : PaneType) (w : World) :
  count_effects is_scroll_write (trace (syncScrollCallback type w))
    ≤ count_effects is_scroll_write (trace w) + 1.
Proof.
  unfold syncScrollCallback.
  destruct (nodeEditor w) as [editor|]; simpl.
  - destruct (DOM.cursorDiv editor), (nodeMdPreviewWrapper w), type; simpl;
      rewrite ?count_effects_app; simpl; lia.
  - rewrite count_effects_app; simpl. lia.
Qed.

Lemma syncScrollCallback_clears_flag (type : PaneType) (w : World) :
  is_Some (nodeEditor w) → isSyncingScroll (syncScrollCallback type w) = false.
Proof. intros [editor Hed]. unfold syncScrollCallback. by rewrite Hed. Qed.

Lemma evolves_isSyncingScroll w w' :
  evolves w w' → isSyncingScroll w' = isSyncingScroll w.
Proof.
  intros [Hs _]. unfold scroll_side in Hs. by injection Hs as _ _ _ _ Hflag _ _ _.
Qed.

Lemma setSelection_isSyncingScroll to w :
  isSyncingScroll (setSelection to w) = isSyncingScroll w.
Proof. unfold setSelection. by destruct (nodeMdText w). Qed.

(** Only a frame callback clears the flag. *)
Lemma isSyncingScroll_cleared_by_callback_only (initialSelection : Selection)
    (a : Action) (w : World) :
  isSyncingScroll w = true →
  isSyncingScroll (perform initialSelection a w) = false →
  ∃ i type, a = RunTask i ∧ tasks w !! i = Some (TSyncScroll type).
Proof.
  intros Hset Hclear.
  assert (∀ w', evolves w w' → isSyncingScroll w' = false → False) as Hkeep
    by (intros w' Hev%evolves_isSyncingScroll; congruence).
  destruct a; simpl in Hclear.
  - (* Mount *)
    rewrite (evolves_isSyncingScroll _ _
      (evolves_componentDidMount _ _ (evolves_refl _))) in Hclear.
    simpl in Hclear. congruence.
  - (* NewProps *) exfalso. eapply Hkeep; [|done]. eauto with world.
  - (* Layout *)
    destruct (nodeEditor w), (nodeMdPreviewWrapper w) eqn:Hw; simpl in Hclear;
      rewrite ?Hw in Hclear; simpl in Hclear; congruence.
  - (* CallSetText *) exfalso. eapply Hkeep; [|done]. eauto with world.
  - (* CallInsertText *)
    exfalso. eapply Hkeep; [|done]. eauto using evolves_insertText with world.
  - (* CallInsertPlaceholder *)
    exfalso. eapply Hkeep; [|done]. eauto using evolves_insertPlaceholder with world.
  - (* CallSetSelection *)
    rewrite setSelection_isSyncingScroll in Hclear. congruence.
  - (* CallClearSelection *)
    unfold clearSelection in Hclear.
    destruct (nodeMdText w); simpl in Hclear; congruence.
  - (* CallFullScreen *) exfalso. eapply Hkeep; [|done]. eauto with world.
  - (* CallOnKeyboard *) congruence.
  - (* CallOffKeyboard *) congruence.
  - (* Change *)
    exfalso. eapply Hkeep; [|done]. unfold handleChange2. eauto with world.
  - (* Scroll *)
    destruct (handleSyncScroll_schedules type e w) as [[_ Hf]|(_ & _ & Hf)]; congruence.
  - (* MouseOverPreview *) congruence.
  - (* RunTask *)
    unfold run_task in Hclear.
    destruct (tasks w !! i) as [t|] eqn:Hi; [|congruence].
    assert (evolves w (with_tasks (delete i (tasks w)) w) ∨ is_frame_callback t = true)
      as [Hev|Hframe].
    { destruct (is_frame_callback t) eqn:Hframe; [by right|left].
      apply evolves_with_tasks.
      rewrite (pending_frames_delete _ _ _ Hi), Hframe. done. }
    + destruct t as [to|type|rendering reaction|placeholder [str|]]; simpl in Hclear.
      * rewrite setSelection_isSyncingScroll in Hclear. simpl in Hclear. congruence.
      * by exists i, type.
      * exfalso. eapply Hkeep; [|done].
        destruct rendering as [|[r|]], reaction; eauto with world.
      * exfalso. eapply Hkeep; [|done]. eauto with world.
      * simpl in Hclear. congruence.
    + destruct t; try discriminate. by eexists _, _.
Qed.

(** What a burst of scroll events does on an instance whose flag accounts
    for the pending frame callbacks. *)
Lemma scroll_burst_coalesces (events : list (PaneType * ref)) (w : World) :
  frames_accounted w →
  frames_accounted (scroll_burst events w)
  ∧ pending_frames (tasks (scroll_burst events w)) ≤ 1
  ∧ (tasks (scroll_burst events w) = tasks w
     ∨ ∃ type, tasks (scroll_burst events w) = tasks w ++ [TSyncScroll type])
  ∧ (isSyncingScroll w = true →
     tasks (scroll_burst events w) = tasks w
     ∧ isSyncingScroll (scroll_burst events w) = true)
  ∧ count_effects is_scroll_write (trace (scroll_burst events w))
    = count_effects is_scroll_write (trace w)
  ∧ (∀ type,
       count_effects is_scroll_write
         (trace (syncScrollCallback type (scroll_burst events w)))
       ≤ count_effects is_scroll_write (trace w) + 1
       ∧ (is_Some (nodeEditor (scroll_burst events w)) →
          isSyncingScroll (syncScrollCallback type (scroll_burst events w)) = false)).
Proof.
  intros Hacc. unfold frames_accounted in *.
  pose proof (scroll_burst_schedules events w) as Hsched.
  pose proof (scroll_burst_writes_nothing events w) as Hquiet.
  split_and!.
  - destruct Hsched as [[-> ->]|(Hclear & [ty ->] & ->)]; [done|].
    rewrite Hclear in Hacc. rewrite pending_frames_app; simpl. lia.
  - destruct Hsched as [[-> _]|(Hclear & [ty ->] & _)].
    + destruct (isSyncingScroll w); lia.
    + rewrite Hclear in Hacc. rewrite pending_frames_app; simpl. lia.
  - destruct Hsched as [[-> _]|(_ & Hty & _)]; [by left | by right].
  - intros Hset. destruct Hsched as [[-> ->]|(Hclear & _)]; [done | congruence].
  - done.
  - intros type. split.
    + rewrite <- Hquiet. apply syncScrollCallback_writes_once.
    + apply syncScrollCallback_clears_flag.
Qed.

(** C8. On an instance however it was constructed and used, a burst of
    scroll events, whatever their number and whichever pane each comes
    from, leaves at most one frame callback pending and schedules at most
    one; it schedules none when the flag [isSyncingScroll] was set, never
    clears the flag and writes to no pane. The callback writes at most once
    and, with the editor there, clears the flag; nothing but a frame
    callback clears it. *)
Theorem scroll_burst_schedules_at_most_one (initialSelection : Selection)
    (props : EditorProps) (config : EditorConfig) (actions : list Action)
    (events : list (PaneType * ref)) :
  let w := run initialSelection actions (constructor props config) in
  pending_frames (tasks (scroll_burst events w)) ≤ 1
  ∧ (tasks (scroll_burst events w) = tasks w
     ∨ ∃ type, tasks (scroll_burst events w) = tasks w ++ [TSyncScroll type])
  ∧ (isSyncingScroll w = true →
     tasks (scroll_burst events w) = tasks w
     ∧ isSyncingScroll (scroll_burst events w) = true)
  ∧ count_effects is_scroll_write (trace (scroll_burst events w))
    = count_effects is_scroll_write (trace w)
  ∧ (∀ type,
       count_effects is_scroll_write
         (trace (syncScrollCallback type (scroll_burst events w)))
       ≤ count_effects is_scroll_write (trace w) + 1
       ∧ (is_Some (nodeEditor (scroll_burst events w)) →
          isSyncingScroll (syncScrollCallback type (scroll_burst events w)) = false))
  ∧ (∀ a w0,
       isSyncingScroll w0 = true →
       isSyncingScroll (perform initialSelection a w0) = false →
       ∃ i type, a = RunTask i ∧ tasks w0 !! i = Some (TSyncScroll type)).
Proof.
  intros w.
  pose proof (inv_frames _ (Invariant_reachable initialSelection props config actions))
    as Hacc.
  destruct (scroll_burst_coalesces events w Hacc) as (_ & H1 & H2 & H3 & H4 & H5).
  split_and!; try done.
  apply isSyncingScroll_cleared_by_callback_only.
Qed.

(** On the mounted sample instance, a burst of three scroll events from the
    edit pane and one from the preview leaves one callback pending. *)
Lemma scroll_burst_schedules_at_most_one_witness :
  pending_frames
    (tasks (scroll_burst [(md, 1%N); (md, 2%N); (html, 3%N); (md, 4%N)] sample_mounted))
  ≤ 1
  ∧ tasks (scroll_burst [(md, 1%N); (md, 2%N); (html, 3%N); (md, 4%N)] sample_mounted)
    = [TSyncScroll md].
Proof.
  split; [|reflexivity].
  apply (scroll_burst_schedules_at_most_one sample_initialSelection sample_props
    sample_config
    [Mount (DOM.mkCodeMirrorEditor true 50%float) []
       (DOM.mkPreviewWrapper 100%float 0%float)]
    [(md, 1%N); (md, 2%N); (html, 3%N); (md, 4%N)]).
Defined.

(** ** Strings: [indexOf], [replace]                                       *)











(** ** Placeholders                                                        *)






(* ===================================================================== *)
(** * Further properties                                                   *)
(* ===================================================================== *)

(** ** The plugin registry: [unuse], [use] again                           *)

Section MoreRegistryFacts.
Context {Config : Type} (emptyConfig : Config).
Implicit Types (plugins : list (Plugins.Plugin Config)) (c : ref).

(** X1. Unregistering a component that is in the registry deletes its
    first entry and nothing else: the entries before and after keep their
    order and the length drops by one. Unregistering a component that is
    not in the registry changes nothing. *)
Theorem unuse_deletes_first_or_nothing c plugins :
  (c ∈ Plugins.comp <$> plugins →
     ∃ i old,
       plugins !! i = Some old ∧ Plugins.comp old = c ∧
       (∀ j q, j < i → plugins !! j = Some q → Plugins.comp q ≠ c) ∧
       Plugins.unuse c plugins = delete i plugins ∧
       S (length (Plugins.unuse c plugins)) = length plugins)
  ∧ (c ∉ Plugins.comp <$> plugins → Plugins.unuse c plugins = plugins).
Proof.
  split.
  - intros [i Hi]%first_with_comp_is_Some.
    destruct (first_with_comp_Some _ _ _ _ Hi) as (k & old & -> & Hk & Hc & Hfirst).
    exists k, old. simpl in Hi.
    assert (k < length plugins) as Hlen by (by eapply lookup_lt_Some).
    unfold Plugins.unuse. rewrite Hi, splice_remove.
    split_and!; try done. rewrite length_delete by (by eexists). lia.
  - intros Hnot. apply (first_with_comp_None c plugins 0) in Hnot.
    unfold Plugins.unuse. by rewrite Hnot.
Qed.

(** X2. Registering a component that was not registered and unregistering
    it again gives the registry back, whatever the configuration. *)
Theorem unuse_after_use_of_new c cfg plugins :
  c ∉ Plugins.comp <$> plugins →
  Plugins.unuse c (Plugins.use emptyConfig c cfg plugins) = plugins.
Proof.
  intros Hnot.
  assert (Plugins.first_with_comp c plugins 0 = None) as Hnone
    by (by apply first_with_comp_None).
  unfold Plugins.use. rewrite Hnone.
  assert (∀ i0, Plugins.first_with_comp c
                  (plugins ++ [Plugins.mkPlugin c (default emptyConfig cfg)]) i0
                = Some (i0 + length plugins)) as Hfound.
  { clear Hnone. induction plugins as [|p rest IH]; intros i0; simpl.
    - rewrite N.eqb_refl. f_equal. lia.
    - rewrite fmap_cons in Hnot. apply not_elem_of_cons in Hnot as [Hne Hrest].
      destruct (N.eqb_spec (Plugins.comp p) c); [congruence|].
      rewrite IH by done. f_equal. lia. }
  unfold Plugins.unuse. rewrite Hfound. simpl.
  rewrite splice_remove, delete_take_drop.
  rewrite take_app_length. rewrite drop_ge by (rewrite length_app; simpl; lia).
  by rewrite app_nil_r.
Qed.

(** X3. Registering the same component twice in a row is registering it
    once with the second configuration: the first configuration is gone
    and no second entry is made. *)
Theorem use_twice_is_use_of_last c cfg1 cfg2 plugins :
  Plugins.use emptyConfig c cfg2 (Plugins.use emptyConfig c cfg1 plugins)
    = Plugins.use emptyConfig c cfg2 plugins.
Proof.
  assert (∀ cfg i0 i,
            Plugins.first_with_comp c plugins i0 = Some (i0 + i) →
            Plugins.first_with_comp c
              (<[i := Plugins.mkPlugin c cfg]> plugins) i0 = Some (i0 + i)) as Hkeep.
  { intros cfg. induction plugins as [|p rest IH]; intros i0 i; simpl; [done|].
    destruct (N.eqb_spec (Plugins.comp p) c) as [Heq|Hne].
    - intros [= Hi]. assert (i = 0) as -> by lia. simpl.
      rewrite N.eqb_refl. f_equal. lia.
    - intros Hi. destruct i as [|i].
      + destruct (first_with_comp_Some _ _ _ _ Hi) as (k & _ & Hk & _). lia.
      + simpl. destruct (N.eqb_spec (Plugins.comp p) c); [congruence|].
        replace (i0 + S i) with (S i0 + i) in * by lia. by apply IH. }
  unfold Plugins.use at 2 3.
  destruct (Plugins.first_with_comp c plugins 0) as [i|] eqn:Hi.
  - destruct (first_with_comp_Some _ _ _ _ Hi) as (k & old & -> & Hk & _).
    simpl in *. assert (k < length plugins) as Hlen by (by eapply lookup_lt_Some).
    rewrite !splice_replace by done.
    unfold Plugins.use. rewrite (Hkeep _ 0 k Hi). simpl.
    rewrite splice_replace by (by rewrite length_insert).
    by rewrite list_insert_insert_eq.
  - assert (c ∉ Plugins.comp <$> plugins) as Hnot
      by (by eapply first_with_comp_None).
    unfold Plugins.use.
    destruct (Plugins.first_with_comp c
                (plugins ++ [Plugins.mkPlugin c (default emptyConfig cfg1)]) 0)
      as [j|] eqn:Hj.
    + destruct (first_with_comp_Some _ _ _ _ Hj) as (k & old & -> & Hk & Hc & Hfirst).
      simpl in *.
      destruct (decide (k < length plugins)) as [Hlt|Hge].
      * rewrite lookup_app_l in Hk by done.
        exfalso. apply Hnot. rewrite <- Hc.
        apply list_elem_of_fmap. exists old. split; [done|].
        by eapply list_elem_of_lookup_2.
      * assert (k = length plugins) as ->.
        { apply lookup_lt_Some in Hk. rewrite length_app in Hk. simpl in Hk. lia. }
        unfold JS.splice. rewrite take_app_length.
        rewrite drop_ge by (rewrite length_app; simpl; lia).
        by rewrite app_nil_r.
    + exfalso. apply (first_with_comp_None c _ 0) in Hj. apply Hj.
      rewrite fmap_app. apply elem_of_app. right. simpl. apply list_elem_of_here.
Qed.

End MoreRegistryFacts.

(** X1 on the sample registry: component 2 is deleted where it stands,
    component 7 is not there. *)
Lemma unuse_deletes_first_or_nothing_witness :
  (∃ i old,
     sample_registry !! i = Some old ∧ Plugins.comp old = 2%N ∧
     (∀ j q, j < i → sample_registry !! j = Some q → Plugins.comp q ≠ 2%N) ∧
     Plugins.unuse 2%N sample_registry = delete i sample_registry ∧
     S (length (Plugins.unuse 2%N sample_registry)) = length sample_registry)
  ∧ Plugins.unuse 7%N sample_registry = sample_registry.
Proof.
  split.
  - apply (proj1 (unuse_deletes_first_or_nothing 2%N sample_registry)).
    simpl. apply list_elem_of_further, list_elem_of_here.
  - apply (proj2 (unuse_deletes_first_or_nothing 7%N sample_registry)).
    simpl. intros Hin. repeat (apply elem_of_cons in Hin as [Hin|Hin]; [discriminate|]).
    by apply elem_of_nil in Hin.
Defined.

(** X2 on the sample registry, with a component that is not in it. *)
Lemma unuse_after_use_of_new_witness :
  Plugins.unuse 7%N (Plugins.use ∅ 7%N (Some {["size" := 5%N]}) sample_registry)
    = sample_registry.
Proof.
  apply (unuse_after_use_of_new ∅ 7%N (Some {["size" := 5%N]}) sample_registry).
  simpl. intros Hin. repeat (apply elem_of_cons in Hin as [Hin|Hin]; [discriminate|]).
  by apply elem_of_nil in Hin.
Defined.

(** ** The plugins of an instance                                          *)

Section GetPluginsFacts.
Context {V : Type} (pluginName align : ref → string)
  (defaultConfig : ref → option (gmap string V)) (DividerPlugin : ref).
Implicit Types (registry plugins : list (Plugins.Plugin (gmap string V))).

Lemma groupPlugins_fold (acc : gmap string (list (Element V))) plugins (a : string) :
  default []
    (foldl
       (λ result it,
          let result :=
            match result !! align (Plugins.comp it) with
            | None => <[align (Plugins.comp it) := []]> result
            | Some _ => result
            end in
          <[align (Plugins.comp it) :=
              default [] (result !! align (Plugins.comp it))
              ++ [createElement pluginName defaultConfig it]]> result)
       acc plugins !! a)
  = default [] (acc !! a)
    ++ (createElement pluginName defaultConfig
          <$> filter (λ it, align (Plugins.comp it) = a) plugins).
Proof.
  revert acc. induction plugins as [|it rest IH]; intros acc; simpl.
  - by rewrite app_nil_r.
  - rewrite IH. cbv zeta. rewrite filter_cons.
    destruct (decide (align (Plugins.comp it) = a)) as [<-|Hne].
    + rewrite lookup_insert_eq. simpl.
      destruct (acc !! align (Plugins.comp it)) as [els|] eqn:Hacc; simpl.
      * rewrite Hacc. simpl. by rewrite <- app_assoc.
      * rewrite lookup_insert_eq. simpl. done.
    + rewrite lookup_insert_ne by done.
      destruct (acc !! align (Plugins.comp it)); [done|].
      by rewrite lookup_insert_ne.
Qed.

Lemma selectPlugins_fold registry (names : list string) plugins :
  foldl
    (λ plugins name,
       if String.eqb name "fonts"
       then foldl (λ plugins name,
                     addToPlugins pluginName DividerPlugin registry name plugins)
              plugins fonts
       else addToPlugins pluginName DividerPlugin registry name plugins)
    plugins names
  = plugins
    ++ (names ≫= expand_name) ≫= resolve_name pluginName DividerPlugin registry.
Proof.
  assert (∀ (ns : list string) ps,
            foldl (λ plugins name,
                     addToPlugins pluginName DividerPlugin registry name plugins) ps ns
            = ps ++ ns ≫= resolve_name pluginName DividerPlugin registry) as Hinner.
  { induction ns as [|n ns IH]; intros ps; simpl; [by rewrite app_nil_r|].
    rewrite IH. unfold addToPlugins, resolve_name.
    destruct (String.eqb n (pluginName DividerPlugin)); simpl;
      [by rewrite <- app_assoc|].
    destruct (first_named pluginName n registry); simpl;
      [by rewrite <- app_assoc | done]. }
  revert plugins. induction names as [|name names IH]; intros plugins.
  - simpl. by rewrite app_nil_r.
  - cbn -[fonts String.eqb]. rewrite IH. unfold expand_name at 2.
    rewrite bind_app.
    destruct (String.eqb name "fonts").
    + rewrite Hinner. by rewrite <- app_assoc.
    + rewrite app_assoc. f_equal. by rewrite <- (Hinner [name] plugins).
Qed.

Lemma first_named_elem_of registry (name : string) it :
  first_named pluginName name registry = Some it →
  it ∈ registry ∧ pluginName (Plugins.comp it) = name.
Proof.
  induction registry as [|p rest IH]; simpl; [done|].
  destruct (String.eqb_spec (pluginName (Plugins.comp p)) name) as [Heq|Hne].
  - intros [= <-]. split; [apply list_elem_of_here | done].
  - intros [Hin Hname]%IH. split; [by apply list_elem_of_further | done].
Qed.

(** X4. The toolbar of an alignment, [getPluginAt(a)], holds the elements
    of the selected plugins whose component declares that alignment, in the
    order of the selection, which is the order of registration when
    [props.plugins] is absent; the object [getPlugins] returns has no entry
    for an alignment that no selected plugin declares. In each element the
    configuration of the registry entry wins, key by key, over the default
    configuration of the component. *)
Theorem getPlugins_groups_by_align registry (props_plugins : option (list string))
    (a : string) :
  getPluginAt (getPlugins pluginName align defaultConfig DividerPlugin
                 registry props_plugins) a
    = createElement pluginName defaultConfig
        <$> filter (λ it, align (Plugins.comp it) = a)
              (selectPlugins pluginName DividerPlugin registry props_plugins)
  ∧ selectPlugins pluginName DividerPlugin registry None = registry
  ∧ (getPlugins pluginName align defaultConfig DividerPlugin registry props_plugins !! a
       = None
     ↔ ∀ it, it ∈ selectPlugins pluginName DividerPlugin registry props_plugins →
             align (Plugins.comp it) ≠ a)
  ∧ (∀ it k,
       el_config (createElement pluginName defaultConfig it) !! k
       = match Plugins.config it !! k with
         | Some v => Some v
         | None => default ∅ (defaultConfig (Plugins.comp it)) !! k
         end).
Proof.
  assert (∀ plugins : list (Plugins.Plugin (gmap string V)),
            default [] (groupPlugins pluginName align defaultConfig plugins !! a)
            = createElement pluginName defaultConfig
                <$> filter (λ it, align (Plugins.comp it) = a) plugins) as Hgroup.
  { intros plugins. unfold groupPlugins. rewrite groupPlugins_fold.
    by rewrite lookup_empty. }
  assert (∀ plugins : list (Plugins.Plugin (gmap string V)),
            groupPlugins pluginName align defaultConfig plugins !! a = None
            ↔ ∀ it, it ∈ plugins → align (Plugins.comp it) ≠ a) as Hnone.
  { intros plugins. unfold groupPlugins.
    assert (∀ acc : gmap string (list (Element V)),
              foldl
                (λ result it,
                   let result :=
                     match result !! align (Plugins.comp it) with
                     | None => <[align (Plugins.comp it) := []]> result
                     | Some _ => result
                     end in
                   <[align (Plugins.comp it) :=
                       default [] (result !! align (Plugins.comp it))
                       ++ [createElement pluginName defaultConfig it]]> result)
                acc plugins !! a = None
              ↔ acc !! a = None ∧ ∀ it, it ∈ plugins → align (Plugins.comp it) ≠ a)
      as Hfold.
    { induction plugins as [|it rest IH]; intros acc; simpl.
      - split; [intros ?; split; [done | by intros ? ?%elem_of_nil] | by intros [? _]].
      - rewrite IH. cbv zeta.
        destruct (decide (align (Plugins.comp it) = a)) as [<-|Hne].
        + rewrite lookup_insert_eq. split; [by intros [? _]|].
          intros [_ Hall]. by destruct (Hall it (list_elem_of_here _ _)).
        + rewrite lookup_insert_ne by done.
          assert (match acc !! align (Plugins.comp it) with
                  | Some _ => acc
                  | None => <[align (Plugins.comp it) := []]> acc
                  end !! a = acc !! a) as Hsame
            by (destruct (acc !! align (Plugins.comp it)); [done|];
                by rewrite lookup_insert_ne).
          rewrite Hsame. split.
          * intros [Hacc Hall]. split; [done|].
            intros it' [->|Hin]%elem_of_cons; [done | by apply Hall].
          * intros [Hacc Hall]. split; [done|].
            intros it' Hin. apply Hall. by apply list_elem_of_further. }
    rewrite Hfold, lookup_empty. by split; [intros [_ ?] | intros ?]. }
  split_and!.
  - apply Hgroup.
  - done.
  - apply Hnone.
  - intros it k. simpl. rewrite lookup_union.
    destruct (Plugins.config it !! k), (default ∅ (defaultConfig (Plugins.comp it)) !! k);
      done.
Qed.

(** X5. With [props.plugins] given, the selection is made name by name, in
    the order of the names: the name of the divider stands for a new
    divider each time it occurs, another name for the first registry entry
    whose component has that name, or for nothing when there is none, and
    'fonts' for its ten names. So an empty array selects nothing, and every
    selected plugin is a divider or an entry of the registry. *)
Theorem selectPlugins_resolves_names registry (names : list string) :
  selectPlugins pluginName DividerPlugin registry (Some names)
    = (names ≫= expand_name) ≫= resolve_name pluginName DividerPlugin registry
  ∧ selectPlugins pluginName DividerPlugin registry (Some []) = []
  ∧ (∀ it, it ∈ selectPlugins pluginName DividerPlugin registry (Some names) →
           it = Plugins.mkPlugin DividerPlugin ∅ ∨ it ∈ registry)
  ∧ (∀ name, String.eqb name "fonts" = false →
             String.eqb name (pluginName DividerPlugin) = false →
             (∀ it, it ∈ registry → pluginName (Plugins.comp it) ≠ name) →
             selectPlugins pluginName DividerPlugin registry (Some (names ++ [name]))
             = selectPlugins pluginName DividerPlugin registry (Some names)).
Proof.
  assert (∀ ns, selectPlugins pluginName DividerPlugin registry (Some ns)
                = (ns ≫= expand_name)
                  ≫= resolve_name pluginName DividerPlugin registry) as Hsel
    by (intros ns; unfold selectPlugins; by rewrite selectPlugins_fold).
  split_and!.
  - apply Hsel.
  - done.
  - rewrite Hsel. intros it (name & Hit & _)%list_elem_of_bind.
    unfold resolve_name in Hit.
    destruct (String.eqb name (pluginName DividerPlugin)).
    + left. by apply list_elem_of_singleton in Hit.
    + right. destruct (first_named pluginName name registry) as [it'|] eqn:Hfound;
        simpl in Hit; [|by apply elem_of_nil in Hit].
      apply list_elem_of_singleton in Hit as ->.
      by apply first_named_elem_of in Hfound as [? _].
  - intros name Hfonts Hdivider Hunknown. rewrite !Hsel.
    rewrite !bind_app. simpl. unfold expand_name at 2. rewrite Hfonts. simpl.
    unfold resolve_name at 2. rewrite Hdivider.
    destruct (first_named pluginName name registry) as [it|] eqn:Hfound.
    + apply first_named_elem_of in Hfound as [Hin Hname].
      by destruct (Hunknown it Hin).
    + simpl. by rewrite !app_nil_r.
Qed.

End GetPluginsFacts.

(** X4 on the sample registry with no [props.plugins]: the left toolbar
    holds 'font-bold' and 'table', the latter with its registered size and
    the default number of rows; nothing is aligned 'top'. *)
Lemma getPlugins_groups_by_align_witness :
  getPluginAt
    (getPlugins sample_pluginName sample_align sample_defaultConfig 0%N
       sample_registry None) "left"
  = [mkElement 1%N ∅ "font-bold";
     mkElement 2%N ({["size" := 3%N]} ∪ {["size" := 1%N; "rows" := 4%N]}) "table"]
  ∧ getPlugins sample_pluginName sample_align sample_defaultConfig 0%N
      sample_registry None !! "top"%string = None.
Proof.
  destruct (getPlugins_groups_by_align sample_pluginName sample_align
              sample_defaultConfig 0%N sample_registry None "left")
    as (Hleft & _).
  destruct (getPlugins_groups_by_align sample_pluginName sample_align
              sample_defaultConfig 0%N sample_registry None "top")
    as (_ & _ & Htop & _).
  split.
  - rewrite Hleft. reflexivity.
  - apply Htop. intros it Hin.
    repeat (apply elem_of_cons in Hin as [->|Hin]; [discriminate|]).
    by apply elem_of_nil in Hin.
Defined.

(** X5 on the sample registry: 'nope' is not registered and is skipped. *)
Lemma selectPlugins_resolves_names_witness :
  selectPlugins sample_pluginName 0%N sample_registry
    (Some (["table"; "divider"]%string ++ ["nope"%string]))
  = selectPlugins sample_pluginName 0%N sample_registry
      (Some ["table"; "divider"]%string).
Proof.
  apply (selectPlugins_resolves_names sample_pluginName 0%N sample_registry
           ["table"; "divider"]%string); [reflexivity | reflexivity |].
  intros it Hin.
  repeat (apply elem_of_cons in Hin as [->|Hin]; [discriminate|]).
  by apply elem_of_nil in Hin.
Defined.

(** ** Keyboard listeners and key presses                                  *)

Lemma onKeyboard_one_prefix (it : ref) (l : list ref) :
  l `prefix_of` onKeyboard_one it l.
Proof.
  unfold onKeyboard_one. destruct (JS.includes l it); simpl; [done|].
  by apply prefix_app_r.
Qed.

Lemma onKeyboard_one_elem_of_iff (it x : ref) (l : list ref) :
  x ∈ onKeyboard_one it l ↔ x ∈ l ∨ x = it.
Proof.
  unfold onKeyboard_one. destruct (JS.includes l it) eqn:E; simpl.
  - apply includes_elem_of in E. split; [by left | by intros [?| ->]].
  - rewrite elem_of_app, list_elem_of_singleton. done.
Qed.

(** X6. [onKeyboard] only appends: the listeners that were registered keep
    their places, in front of the new ones, so the order of registration,
    which decides between two listeners of the same key, is kept; and the
    list afterwards holds what it held and what was given, nothing else. *)
Theorem onKeyboard_appends_in_order (data : KeyboardArg) (l : list ref) :
  l `prefix_of` onKeyboard data l
  ∧ ∀ x, x ∈ onKeyboard data l ↔ x ∈ l ∨ x ∈ arg_listeners data.
Proof.
  destruct data as [it|its]; simpl.
  - split; [apply onKeyboard_one_prefix|].
    intros x. rewrite onKeyboard_one_elem_of_iff, list_elem_of_singleton. done.
  - revert l. induction its as [|it its IH]; intros l; simpl.
    + split; [done|]. intros x. rewrite elem_of_nil. tauto.
    + destruct (IH (onKeyboard_one it l)) as [Hprefix Hin]. split.
      * etrans; [apply onKeyboard_one_prefix | done].
      * intros x. rewrite Hin, onKeyboard_one_elem_of_iff, elem_of_cons.
        tauto.
Qed.

Lemma filter_ne_absent (it : ref) (l : list ref) :
  it ∉ l → filter (λ x, x ≠ it) l = l.
Proof.
  induction l as [|y l IH]; [done|].
  intros [Hne Hl]%not_elem_of_cons.
  rewrite filter_cons_True by congruence. by rewrite IH.
Qed.

Lemma offKeyboard_one_filter (it : ref) (l : list ref) :
  NoDup l → offKeyboard_one it l = filter (λ x, x ≠ it) l.
Proof.
  intros Hnd.
  destruct (offKeyboard_one_delete it l) as [[Hnot ->]|(i & Hi & Hfirst & ->)].
  - by rewrite filter_ne_absent.
  - rewrite delete_take_drop.
    rewrite <- (take_drop_middle l i it Hi) at 3.
    rewrite <- (take_drop_middle l i it Hi) in Hnd.
    apply NoDup_app in Hnd as (_ & _ & [Hlater _]%NoDup_cons).
    rewrite filter_app, filter_cons_False by (intros Hne; by apply Hne).
    by rewrite !filter_ne_absent.
Qed.

(** X7. On a listener list without repetitions (which the list of an
    instance always is), [offKeyboard] removes exactly the listeners it is
    given and keeps the others in their order; a listener that was not
    registered is ignored. *)
Theorem offKeyboard_removes_exactly (data : KeyboardArg) (l : list ref) :
  NoDup l →
  offKeyboard data l = filter (λ x, x ∉ arg_listeners data) l.
Proof.
  destruct data as [it|its]; simpl.
  - intros Hnd. rewrite offKeyboard_one_filter by done.
    apply list_filter_iff. intros x. rewrite list_elem_of_singleton. done.
  - revert l. induction its as [|it its IH]; intros l Hnd; simpl.
    + symmetry. induction l as [|y l IHl]; [done|].
      rewrite filter_cons_True by apply not_elem_of_nil.
      f_equal. apply IHl. by apply NoDup_cons in Hnd as [_ ?].
    + rewrite IH by (by apply offKeyboard_one_NoDup).
      rewrite offKeyboard_one_filter by done.
      rewrite list_filter_filter. apply list_filter_iff.
      intros x. rewrite not_elem_of_cons. tauto.
Qed.

(** X7 on a list of three listeners: the two that are given and registered
    go, the one that is given and not registered is ignored. *)
Lemma offKeyboard_removes_exactly_witness :
  offKeyboard (ListenerArray [5%N; 8%N; 6%N]) [5%N; 6%N; 7%N] = [7%N].
Proof.
  rewrite (offKeyboard_removes_exactly (ListenerArray [5%N; 8%N; 6%N]) [5%N; 6%N; 7%N]).
  - reflexivity.
  - repeat (apply NoDup_cons; split;
            [intros Hin; repeat (apply elem_of_cons in Hin as [Hin|Hin]; [discriminate|]);
             by apply elem_of_nil in Hin|]).
    apply NoDup_nil_2.
Defined.

Section KeyDownFacts.
Variable isKeyMatch : ref → ref → bool.

Lemma handleKeyDown_CallbackOf (e it : ref) (l : list ref) :
  handleKeyDown isKeyMatch e l = CallbackOf it ↔
  ∃ i, l !! i = Some it ∧ isKeyMatch e it = true
       ∧ ∀ j it', j < i → l !! j = Some it' → isKeyMatch e it' = false.
Proof.
  induction l as [|y l IH]; simpl.
  - split; [done | by intros (i & ? & _)].
  - destruct (isKeyMatch e y) eqn:Hy.
    + split.
      * intros [= <-]. exists 0. split_and!; [done | done | lia].
      * intros ([|i] & Hi & Hm & Hfirst); simpl in Hi; [congruence|].
        specialize (Hfirst 0 y). simpl in Hfirst.
        rewrite Hfirst in Hy by (done || lia). done.
    + rewrite IH. split.
      * intros (i & Hi & Hm & Hfirst). exists (S i). split_and!; [done | done |].
        intros [|j] it' Hj; simpl; [by intros [= <-] | intros Hit'].
        apply (Hfirst j); [lia | done].
      * intros ([|i] & Hi & Hm & Hfirst); simpl in Hi; [congruence|].
        exists i. split_and!; [done | done |].
        intros j it' Hj Hit'. apply (Hfirst (S j)); [lia | done].
Qed.

Lemma handleKeyDown_app (e : ref) (l k : list ref) :
  handleKeyDown isKeyMatch e (l ++ k)
  = match handleKeyDown isKeyMatch e l with
    | CallbackOf it => CallbackOf it
    | KeyDownEmitted => handleKeyDown isKeyMatch e k
    end.
Proof.
  induction l as [|y l IH]; simpl; [done|]. by destruct (isKeyMatch e y).
Qed.

(** X8. [handleKeyDown] calls the callback of the first listener, in the
    order of the list, that matches the key event, and of no other; it
    emits the key-down event exactly when no listener matches. *)
Theorem handleKeyDown_first_match_wins (e : ref) (l : list ref) :
  (∀ it,
     handleKeyDown isKeyMatch e l = CallbackOf it ↔
     ∃ i, l !! i = Some it ∧ isKeyMatch e it = true
          ∧ ∀ j it', j < i → l !! j = Some it' → isKeyMatch e it' = false)
  ∧ (handleKeyDown isKeyMatch e l = KeyDownEmitted ↔
     ∀ it, it ∈ l → isKeyMatch e it = false).
Proof.
  split; [intros it; apply handleKeyDown_CallbackOf|].
  induction l as [|y l IH]; simpl.
  - split; [by intros _ it ?%elem_of_nil | done].
  - destruct (isKeyMatch e y) eqn:Hy.
    + split; [done|]. intros Hall.
      rewrite (Hall y) in Hy by apply list_elem_of_here. done.
    + rewrite IH. split.
      * intros Hall it [->|Hin]%elem_of_cons; [done | by apply Hall].
      * intros Hall it Hin. apply Hall. by apply list_elem_of_further.
Qed.

(** X9. Registering listeners never changes which callback a key event
    reaches when one was reached before: a listener registered later does
    not take a key over. And once a listener has been unregistered from a
    list without repetitions, no key event reaches its callback. *)
Theorem handleKeyDown_after_on_and_off (e : ref) (l : list ref) :
  (∀ data it,
     handleKeyDown isKeyMatch e l = CallbackOf it →
     handleKeyDown isKeyMatch e (onKeyboard data l) = CallbackOf it)
  ∧ (NoDup l →
     ∀ it, handleKeyDown isKeyMatch e (offKeyboard (OneListener it) l) ≠ CallbackOf it).
Proof.
  split.
  - intros data it Hcalled.
    assert (l `prefix_of` onKeyboard data l) as [k ->].
    { destruct data as [x|its]; simpl; [apply onKeyboard_one_prefix|].
      revert l Hcalled. induction its as [|x its IH]; intros l Hcalled; simpl; [done|].
      etrans; [apply onKeyboard_one_prefix|]. apply IH.
      destruct (onKeyboard_one_prefix x l) as [k ->].
      by rewrite handleKeyDown_app, Hcalled. }
    by rewrite handleKeyDown_app, Hcalled.
  - intros Hnd it Hcalled.
    apply handleKeyDown_CallbackOf in Hcalled as (i & Hi & _).
    apply (offKeyboard_one_removes it l Hnd). simpl.
    by eapply list_elem_of_lookup_2.
Qed.

End KeyDownFacts.

(** X9 on two listeners of key 5, the second of which matches every key:
    listener 5 keeps key 5 when listener 9 is registered again or listener
    4 is added, and after [offKeyboard] it is listener 9 that is called. *)
Lemma handleKeyDown_after_on_and_off_witness :
  handleKeyDown sample_isKeyMatch 5%N
    (onKeyboard (ListenerArray [9%N; 4%N]) [5%N; 9%N]) = CallbackOf 5%N
  ∧ handleKeyDown sample_isKeyMatch 5%N (offKeyboard (OneListener 5%N) [5%N; 9%N])
    = CallbackOf 9%N.
Proof.
  split; [|reflexivity].
  apply (proj1 (handleKeyDown_after_on_and_off sample_isKeyMatch 5%N [5%N; 9%N])).
  reflexivity.
Defined.

(** ** What [setText] leaves behind                                        *)

Lemma slice_split (s : jsstring) (i : Z) :
  JS.slice s 0 i ++ JS.slice s i (Z.of_nat (length s)) = s.
Proof.
  unfold JS.slice. simpl.
  destruct (Z.ltb_spec (Z.of_nat (length s)) 0) as [?|_]; [lia|].
  rewrite (Z.min_l 0) by lia. rewrite Z.min_id. simpl. rewrite Z.sub_0_r.
  set (k := if (i <? 0)%Z then Z.max (Z.of_nat (length s) + i) 0
            else Z.min i (Z.of_nat (length s))).
  assert (0 ≤ k ≤ Z.of_nat (length s))%Z as Hk
    by (unfold k; destruct (Z.ltb_spec i 0); lia).
  change (Z.to_nat 0) with 0. rewrite drop_0.
  rewrite (take_ge (drop (Z.to_nat k) s)) by (rewrite length_drop; lia).
  apply take_drop.
Qed.



Lemma rendering_of_renderHTML t w : fst (renderHTML t w) = rendering_of w t.
Proof.
  unfold renderHTML, rendering_of, setHtml.
  destruct (p_renderHTML (props w)) as [f|]; [|done]. by destruct (f t).
Qed.

Lemma renderHTML_frame t w :
  props (snd (renderHTML t w)) = props w
  ∧ config (snd (renderHTML t w)) = config w
  ∧ tasks (snd (renderHTML t w)) = tasks w
  ∧ nodeMdPreview (snd (renderHTML t w)) = nodeMdPreview w.
Proof.
  unfold renderHTML, setHtml.
  destruct (p_renderHTML (props w)) as [f|]; [|done]. by destruct (f t).
Qed.

Lemma chain_frame rendering reaction w :
  props (chain rendering reaction w) = props w
  ∧ config (chain rendering reaction w) = config w
  ∧ tasks (chain rendering reaction w) = tasks w ++ chained rendering reaction
  ∧ nodeMdPreview (chain rendering reaction w) = nodeMdPreview w.
Proof.
  unfold chain, chained. destruct rendering, reaction; simpl;
    by rewrite ?app_nil_r.
Qed.

(** What [setText] does when the value differs from the text, in terms of
    the rendering it starts. *)
Lemma setText_changed_eq value event newSelection w :
  s_text (state w) ≠ default [] value →
  ∃ w', setText value event newSelection w
        = chain (rendering_of w (JS.replace_sentinel (default [] value)))
            (reaction_of w event)
            (snd (renderHTML (JS.replace_sentinel (default [] value)) w'))
      ∧ props w' = props w ∧ config w' = config w
      ∧ nodeMdPreview w' = nodeMdPreview w
      ∧ s_html (state w') = s_html (state w)
      ∧ tasks w'
        = tasks w ++ match newSelection with
                     | Some to => [TSetSelection to]
                     | None => []
                     end
      ∧ trace w'
        = trace w
          ++ [SetState (UpdText (JS.replace_sentinel (default [] value)))]
          ++ (if Nat.eqb (calls_before w) 1
              then [OnChange (JS.replace_sentinel (default [] value))
                      (getHtmlValue w) event]
              else [])
          ++ [Emit (EVENT_CHANGE (default [] value) event (bool_decide (event = None)))]
      ∧ s_text (state w') = JS.replace_sentinel (default [] value).
Proof.
  intros Hne. unfold setText. cbv zeta.
  rewrite (proj2 (str_eq_false _ _) Hne).
  destruct (renderHTML _ _) as [r w5] eqn:E.
  match type of E with renderHTML ?t ?x = _ =>
    exists x;
    assert (r = rendering_of x t) as -> by (by rewrite <- rendering_of_renderHTML, E);
    replace w5 with (snd (renderHTML t x)) by (by rewrite E)
  end.
  unfold reaction_of, calls_before, rendering_of.
  destruct (p_onChange (props w)) eqn:Hp,
    (default both (c_onChangeTrigger (config w))) eqn:Ht,
    newSelection, (hasContentChanged w) eqn:Hc; simpl;
    rewrite ?Hp, ?Hc; simpl; rewrite ?Hc; simpl;
    unfold getHtmlValue; simpl; rewrite <- ?app_assoc; simpl;
    rewrite ?app_nil_r; by split_and!.
Qed.

Lemma scheduled_since_app (w w' : World) (ts : list Task) :
  tasks w' = tasks w ++ ts → scheduled_since w w' = ts.
Proof. intros H. unfold scheduled_since. rewrite H. apply drop_app_length. Qed.

Lemma setText_changed_tasks value event newSelection w :
  s_text (state w) ≠ default [] value →
  scheduled_since w (setText value event newSelection w)
  = match newSelection with
    | Some to => [TSetSelection to]
    | None => []
    end
    ++ chained (rendering_of w (JS.replace_sentinel (default [] value)))
         (reaction_of w event).
Proof.
  intros Hne.
  destruct (setText_changed_eq value event newSelection w Hne)
    as (w' & -> & _ & _ & _ & _ & Htasks & _).
  apply scheduled_since_app.
  destruct (chain_frame
              (rendering_of w (JS.replace_sentinel (default [] value)))
              (reaction_of w event)
              (snd (renderHTML (JS.replace_sentinel (default [] value)) w')))
    as (_ & _ & -> & _).
  destruct (renderHTML_frame (JS.replace_sentinel (default [] value)) w')
    as (_ & _ & -> & _).
  by rewrite Htasks, <- app_assoc.
Qed.

Lemma setText_props value event newSelection w :
  props (setText value event newSelection w) = props w
  ∧ config (setText value event newSelection w) = config w.
Proof.
  destruct (decide (s_text (state w) = default [] value)) as [Heq|Hne].
  - by rewrite setText_same.
  - destruct (setText_changed_eq value event newSelection w Hne)
      as (w' & -> & Hp & Hc & _).
    destruct (chain_frame
                (rendering_of w (JS.replace_sentinel (default [] value)))
                (reaction_of w event)
                (snd (renderHTML (JS.replace_sentinel (default [] value)) w')))
      as (-> & -> & _).
    destruct (renderHTML_frame (JS.replace_sentinel (default [] value)) w')
      as (-> & -> & _).
    done.
Qed.

(** ** Notifications of a change                                           *)



Lemma renderHTML_onChange_count t w :
  count_effects is_onChange_call (trace (snd (renderHTML t w)))
  = count_effects is_onChange_call (trace w).
Proof.
  unfold renderHTML, setHtml.
  destruct (p_renderHTML (props w)) as [f|]; simpl.
  - destruct (f t); simpl; rewrite ?count_effects_app; simpl; lia.
  - rewrite count_effects_app; simpl. lia.
Qed.

Lemma runTask_TRendered_onChange_count rendering reaction w :
  count_effects is_onChange_call (trace (runTask (TRendered rendering reaction) w))
  = count_effects is_onChange_call (trace w)
    + (if p_onChange (props w)
       then match reaction, rendering with
            | Some _, RenderingPending None => 0
            | Some _, _ => 1
            | None, _ => 0
            end
       else 0).
Proof.
  destruct rendering as [|[r|]], reaction as [ev|]; simpl;
    unfold afterRenderNotify; simpl;
    destruct (p_onChange (props w)); simpl;
    rewrite ?count_effects_app; simpl; lia.
Qed.

(** X11. A [setText] that changes the text calls [props.onChange], when it
    is given, once at once unless the trigger is 'afterRender', and once
    more when the rendering promise is reacted to unless the trigger is
    'beforeRender' or the host's promise rejects: twice with the default
    trigger 'both', once with either of the others, never without the
    prop. A selection passed along does not change the count. *)
Theorem onChange_calls_follow_trigger (value : option jsstring) (event : option ref)
    (newSelection : option SelRange) (w : World) :
  getMdValue w ≠ default [] value →
  count_effects is_onChange_call (trace (setText value event newSelection w))
    = count_effects is_onChange_call (trace w) + calls_before w
  ∧ count_effects is_onChange_call
      (trace (run_all (scheduled_since w (setText value event newSelection w))
                (setText value event newSelection w)))
    = count_effects is_onChange_call (trace w) + calls_before w
      + calls_after w (JS.replace_sentinel (default [] value)).
Proof.
  intros Hne. unfold getMdValue in Hne.
  assert (count_effects is_onChange_call (trace (setText value event newSelection w))
          = count_effects is_onChange_call (trace w) + calls_before w) as Hbefore.
  { destruct (setText_changed_eq value event newSelection w Hne)
      as (w' & -> & _ & _ & _ & _ & _ & Htrace & _).
    rewrite trace_chain, renderHTML_onChange_count, Htrace.
    rewrite !count_effects_app. unfold calls_before.
    destruct (p_onChange (props w)),
      (default both (c_onChangeTrigger (config w))); simpl; lia. }
  split; [done|].
  rewrite (setText_changed_tasks value event newSelection w Hne).
  destruct (setText_props value event newSelection w) as [Hp Hc].
  revert Hbefore Hp.
  generalize (setText value event newSelection w). intros w1 Hbefore Hp.
  assert (∀ w2, props w2 = props w →
            count_effects is_onChange_call
              (trace (run_all
                        (chained (rendering_of w (JS.replace_sentinel (default [] value)))
                           (reaction_of w event)) w2))
            = count_effects is_onChange_call (trace w2)
              + calls_after w (JS.replace_sentinel (default [] value))) as Hchained.
  { intros w2 Hp2. unfold chained, calls_after, reaction_of.
    destruct (rendering_of w (JS.replace_sentinel (default [] value))) as [|[r|]],
      (default both (c_onChangeTrigger (config w)));
      unfold run_all; cbn [foldl];
      rewrite ?runTask_TRendered_onChange_count, ?Hp2;
      destruct (p_onChange (props w)); simpl; lia. }
  destruct newSelection as [to|]; simpl.
  - rewrite Hchained.
    + unfold setSelection. destruct (nodeMdText w1); simpl; lia.
    + unfold setSelection. by destruct (nodeMdText w1).
  - rewrite Hchained by done. lia.
Qed.

(** X11 on the mounted sample instance (an [onChange] prop, the default
    trigger, a render function that answers at once): two calls. *)
Lemma onChange_calls_follow_trigger_witness :
  count_effects is_onChange_call
    (trace (run_all (scheduled_since sample_mounted
                       (setText (Some (JS.lit "hi")) None None sample_mounted))
              (setText (Some (JS.lit "hi")) None None sample_mounted)))
  = 2.
Proof.
  destruct (onChange_calls_follow_trigger (Some (JS.lit "hi")) None None sample_mounted)
    as [_ Hafter]; [discriminate|].
  rewrite Hafter. reflexivity.
Defined.

(** ** Rendering                                                           *)

(** X12. Whichever of its three shapes the host's render function uses to
    give the html [h] for a text (the value, a function returning it, or a
    promise resolving to it), once [renderHTML] has run and the reaction it
    leaves pending, if any, has run too, the stored html is [h]; the text
    is not touched. *)
Theorem renderHTML_stores_what_was_rendered (t : jsstring) (h : HtmlType) (w : World) :
  renders w t h →
  s_html (state (run_all (chained (fst (renderHTML t w)) None) (snd (renderHTML t w))))
    = h
  ∧ getMdValue (run_all (chained (fst (renderHTML t w)) None) (snd (renderHTML t w)))
    = getMdValue w.
Proof.
  intros (f & Hf & Hshape). unfold renderHTML, setHtml, getMdValue. rewrite Hf.
  destruct Hshape as [-> | [-> | ->]]; done.
Qed.

(** X12 on the mounted sample instance and the text "x". *)
Lemma renderHTML_stores_what_was_rendered_witness :
  s_html (state (run_all (chained (fst (renderHTML (JS.lit "x") sample_mounted)) None)
                   (snd (renderHTML (JS.lit "x") sample_mounted))))
  = HtmlString (JS.lit "<p>x</p>").
Proof.
  apply (renderHTML_stores_what_was_rendered (JS.lit "x")
           (HtmlString (JS.lit "<p>x</p>")) sample_mounted).
  exists sample_render. split; [reflexivity | by left].
Defined.






(** ** Following [props.value]                                             *)

Lemma componentDidUpdate_props (w : World) :
  props (componentDidUpdate w) = props w.
Proof.
  unfold componentDidUpdate.
  destruct (p_value (props w)) as [v|]; [|done].
  destruct (negb (JS.str_eq v _)); [|done].
  destruct (negb (JS.str_eq _ _)); [|done].
  destruct (renderHTML _ _) as [r w'] eqn:E.
  match type of E with renderHTML ?t ?x = _ =>
    pose proof (renderHTML_frame t x) as (Hp & _); rewrite E in Hp; simpl in Hp end.
  destruct (chain_frame r None w') as (-> & _). by rewrite Hp.
Qed.

Lemma componentDidUpdate_sets_text (v : jsstring) (w : World) :
  p_value (props w) = Some v →
  JS.SENTINEL ∉ s_text (state w) →
  s_text (state (componentDidUpdate w)) = JS.replace_sentinel v.
Proof.
  intros Hv Hclean. unfold componentDidUpdate. rewrite Hv.
  destruct (decide (v = s_text (state w))) as [Heq|Hne].
  - rewrite (proj2 (str_eq_true _ _) Heq). simpl.
    rewrite Heq. by rewrite replace_sentinel_id.
  - rewrite (proj2 (str_eq_false _ _) Hne). simpl.
    destruct (decide (s_text (state w) = JS.replace_sentinel v)) as [Heq'|Hne'].
    + by rewrite (proj2 (str_eq_true _ _) Heq').
    + rewrite (proj2 (str_eq_false _ _) Hne'). simpl.
      destruct (renderHTML _ _) as [r w'] eqn:E.
      match type of E with renderHTML ?t ?x = _ =>
        pose proof (renderHTML_text t x) as Ht; rewrite E in Ht; simpl in Ht end.
      by rewrite state_chain, Ht.
Qed.

(** X14. [componentDidUpdate] brings the text to [props.value] with each
    sentinel replaced by a newline, and a second run with the same props
    changes nothing more: the update that its own [setState] causes does
    not loop. *)
Theorem componentDidUpdate_follows_value (v : jsstring) (w : World) :
  p_value (props w) = Some v →
  JS.SENTINEL ∉ getMdValue w →
  getMdValue (componentDidUpdate w) = JS.replace_sentinel v
  ∧ componentDidUpdate (componentDidUpdate w) = componentDidUpdate w.
Proof.
  intros Hv Hclean. unfold getMdValue in *.
  pose proof (componentDidUpdate_sets_text v w Hv Hclean) as Htext.
  split; [done|].
  pose proof (componentDidUpdate_props w) as Hp.
  revert Htext Hp. generalize (componentDidUpdate w). intros w1 Htext Hp.
  unfold componentDidUpdate. rewrite Hp, Hv.
  destruct (JS.str_eq v (s_text (state w1))); [done|]. simpl.
  by rewrite (proj2 (str_eq_true _ _) Htext).
Qed.

(** X14 on the mounted sample instance given the value "x↵y". *)
Lemma componentDidUpdate_follows_value_witness :
  getMdValue
    (componentDidUpdate
       (with_props
          (mkProps (Some (JS.lit "x" ++ [JS.SENTINEL] ++ JS.lit "y")) None
             (Some sample_render) true false) sample_mounted))
  = JS.lit "x" ++ [JS.LF] ++ JS.lit "y".
Proof.
  apply (componentDidUpdate_follows_value
           (JS.lit "x" ++ [JS.SENTINEL] ++ JS.lit "y")
           (with_props
              (mkProps (Some (JS.lit "x" ++ [JS.SENTINEL] ++ JS.lit "y")) None
                 (Some sample_render) true false) sample_mounted)).
  - reflexivity.
  - vm_compute. intros H. by repeat (apply elem_of_cons in H as [H|H]; [discriminate|]);
      apply elem_of_nil in H.
Defined.

(** X15. What the constructor takes for the text when [props.value] is the
    empty string is [props.defaultValue], as if no value were given; the
    first [componentDidUpdate] then sets the text to the empty value. With
    any other value, or none, [componentDidUpdate] right after the
    constructor changes nothing. *)
Theorem empty_value_shows_defaultValue_until_update (given : EditorProps)
    (merged : EditorConfig) :
  (p_value given = Some [] →
     getMdValue (constructor given merged)
       = JS.replace_sentinel (JS.or_empty (p_defaultValue given))
     ∧ getMdValue (componentDidUpdate (constructor given merged)) = [])
  ∧ (p_value given ≠ Some [] →
     componentDidUpdate (constructor given merged) = constructor given merged).
Proof.
  split.
  - intros Hv. split; [unfold getMdValue, constructor; simpl; by rewrite Hv|].
    apply (componentDidUpdate_sets_text [] (constructor given merged));
      [done | apply replace_sentinel_clean].
  - intros Hv. unfold componentDidUpdate. simpl.
    destruct (p_value given) as [[|c v]|] eqn:E; [done| |done].
    unfold JS.or_else, JS.or_empty. simpl.
    destruct (JS.str_eq (c :: v) _); [done|]. simpl.
    by rewrite (proj2 (str_eq_true _ _) eq_refl).
Qed.

(** X15 with the value '' and the default value "d". *)
Lemma empty_value_shows_defaultValue_until_update_witness :
  getMdValue (constructor (mkProps (Some []) (Some (JS.lit "d")) None false false)
                sample_config)
  = JS.lit "d"
  ∧ getMdValue
      (componentDidUpdate
         (constructor (mkProps (Some []) (Some (JS.lit "d")) None false false)
            sample_config))
    = [].
Proof.
  apply (proj1 (empty_value_shows_defaultValue_until_update
                  (mkProps (Some []) (Some (JS.lit "d")) None false false)
                  sample_config)).
  reflexivity.
Defined.

(** ** Inserting text                                                      *)






Section InsertText.

Variable initialSelection : Selection.


(** X16. Inserting nothing without replacing the selection does nothing at
    all, wherever the selection is: the text is put together again as it
    was, and [setText] returns at its guard, so that no state is set, no
    notification sent and no selection scheduled, even when a new
    selection is passed. *)
Theorem insertText_of_nothing_does_nothing (newSelection : option SelRange) (w : World) :
  insertText initialSelection None None newSelection w = w
  ∧ insertText initialSelection (Some []) (Some false) newSelection w = w.
Proof.
  split; unfold insertText; simpl; rewrite slice_split; by apply setText_same.
Qed.


End InsertText.


(** ** A placeholder and its resolution                                    *)

Section Placeholder.

Variable initialSelection : Selection.


End Placeholder.


(** ** Which pane drives the scrolling                                     *)

Lemma evolves_shouldSyncScroll w w' :
  evolves w w' → shouldSyncScroll w' = shouldSyncScroll w.
Proof.
  intros [Hs _]. unfold scroll_side in Hs. by injection Hs as _ _ _ _ _ Hactive _ _.
Qed.

Lemma handleSyncScroll_frame (type : PaneType) (e : ref) (w : World) :
  shouldSyncScroll (handleSyncScroll type e w) = shouldSyncScroll w
  ∧ props (handleSyncScroll type e w) = props w
  ∧ trace (handleSyncScroll type e w)
    = trace w ++ (if same_pane type (shouldSyncScroll w)
                  then scroll_report w (type, e)
                  else []).
Proof.
  unfold handleSyncScroll, scroll_report. cbv zeta.
  destruct (same_pane type (shouldSyncScroll w)); cbn -[existsb String.eqb];
    [|by rewrite app_nil_r].
  destruct (p_onScroll (props w)) eqn:Hp; cbn -[existsb String.eqb];
    destruct (negb (existsb _ _)); cbn -[existsb String.eqb];
    rewrite ?Hp, <- ?app_assoc; try done;
    destruct (hasContentChanged w), (nodeMdText w), (nodeMdPreviewWrapper w),
      (isSyncingScroll w) eqn:Hflag; cbn; rewrite ?Hflag; cbn;
    by rewrite ?Hp, <- ?app_assoc.
Qed.

Section ActivePane.

Variable initialSelection : Selection.

Lemma perform_keeps_preview_active (a : Action) (w : World) :
  shouldSyncScroll w = html →
  shouldSyncScroll (perform initialSelection a w) = html.
Proof.
  intros Hactive.
  assert (∀ w0 w', shouldSyncScroll w0 = html → evolves w0 w' →
            shouldSyncScroll w' = html) as Hkeep
    by (intros w0 w' H0 Hev%evolves_shouldSyncScroll; congruence).
  destruct a; simpl.
  - (* Mount *)
    eapply Hkeep; [|apply evolves_componentDidMount, evolves_refl]. done.
  - (* NewProps *) eapply Hkeep; [done|]. eauto with world.
  - (* Layout *)
    destruct (nodeEditor w), (nodeMdPreviewWrapper w) eqn:Hw; simpl;
      rewrite ?Hw; done.
  - (* CallSetText *) eapply Hkeep; [done|]. eauto with world.
  - (* CallInsertText *)
    eapply Hkeep; [done|]. eauto using evolves_insertText with world.
  - (* CallInsertPlaceholder *)
    eapply Hkeep; [done|]. eauto using evolves_insertPlaceholder with world.
  - (* CallSetSelection *) unfold setSelection. by destruct (nodeMdText w).
  - (* CallClearSelection *) unfold clearSelection. by destruct (nodeMdText w).
  - (* CallFullScreen *) eapply Hkeep; [done|]. eauto with world.
  - (* CallOnKeyboard *) done.
  - (* CallOffKeyboard *) done.
  - (* Change *) eapply Hkeep; [done|]. unfold handleChange2. eauto with world.
  - (* Scroll *) by rewrite (proj1 (handleSyncScroll_frame type e w)).
  - (* MouseOverPreview *) done.
  - (* RunTask *)
    unfold run_task. destruct (tasks w !! i) as [t|]; [|done].
    destruct t as [to|type|rendering reaction|placeholder [str|]]; simpl.
    + unfold setSelection. simpl. by destruct (nodeMdText w).
    + unfold syncScrollCallback. simpl.
      destruct (nodeEditor w) as [editor|]; [|done].
      by destruct (DOM.cursorDiv editor), (nodeMdPreviewWrapper w), type.
    + eapply (Hkeep (with_tasks (delete i (tasks w)) w)); [done|].
      destruct rendering as [|[r|]], reaction; eauto with world.
    + eapply (Hkeep (with_tasks (delete i (tasks w)) w)); [done|].
      eauto with world.
    + done.
Qed.

(** X19. Once the pointer has been over the preview, the preview stays
    the pane that drives the scrolling, whatever happens next; a scroll
    event of the edit pane is then dropped: it is not passed to
    [props.onScroll], not emitted, and schedules nothing. Nothing in
    [render] makes the edit pane the driving one again. *)
Theorem preview_hover_is_final (actions : list Action) (e : ref) (w : World) :
  shouldSyncScroll (run initialSelection (MouseOverPreview :: actions) w) = html
  ∧ handleSyncScroll md e (run initialSelection (MouseOverPreview :: actions) w)
    = run initialSelection (MouseOverPreview :: actions) w.
Proof.
  assert (shouldSyncScroll (run initialSelection (MouseOverPreview :: actions) w) = html)
    as Hactive.
  { unfold run. simpl. fold (run initialSelection actions (previewMouseOver w)).
    assert (shouldSyncScroll (previewMouseOver w) = html) as Hhover by done.
    revert Hhover. generalize (previewMouseOver w).
    induction actions as [|a rest IH]; intros w0 Hhover; [done|].
    simpl. by apply IH, perform_keeps_preview_active. }
  split; [done|]. unfold handleSyncScroll. by rewrite Hactive.
Qed.

End ActivePane.

(** X20. Every scroll event of a burst that comes from the driving pane
    is reported to the host, through [props.onScroll] when it is given and
    then through the emitter, in the order of the events and whether or
    not a frame callback is scheduled for it; the events of the other pane
    are not reported, and nothing else is written to the log. *)
Theorem scroll_burst_reports_every_event (events : list (PaneType * ref)) (w : World) :
  trace (scroll_burst events w)
  = trace w
    ++ concat (scroll_report w <$> from_pane (shouldSyncScroll w) events).
Proof.
  revert w. induction events as [|[type e] events IH]; intros w.
  - simpl. by rewrite app_nil_r.
  - unfold scroll_burst in *. simpl. rewrite IH.
    destruct (handleSyncScroll_frame type e w) as (-> & Hp & ->).
    assert (scroll_report (handleSyncScroll type e w) = scroll_report w) as ->
      by (unfold scroll_report; by rewrite Hp).
    unfold from_pane.
    destruct (same_pane type (shouldSyncScroll w)) eqn:Hsame.
    + rewrite filter_cons_True by done. simpl. by rewrite <- !app_assoc.
    + rewrite filter_cons_False by (simpl; congruence). by rewrite app_nil_r.
Qed.

